(** * Driver Attendance API: a shallow embedding of [main.py]

    The request handlers of the FastAPI application are embedded as
    state-passing computations over an in-memory picture of the MongoDB
    database they talk to.  A document is a finite map from field names to
    values, a collection is the list of its documents in the store's natural
    order, and the database maps collection names to collections.

    What the outside world decides for one request (the clock reading of
    [datetime.utcnow()] and the [ObjectId] the driver generates for an
    inserted document) is passed in explicitly as a [world]. *)

From Stdlib Require Import ZArith NArith Ascii String List Lia.
From stdpp Require Import base decidable option list strings gmap fin_maps.

Local Open Scope string_scope.
Local Open Scope Z_scope.

(** ** bson.ObjectId

    An ObjectId is a 12-byte value, kept here as the 96-bit number those
    bytes spell.  [str(oid)] is its 24-digit lower-case hexadecimal text;
    [ObjectId(s)] accepts a [str] of length 24 that reads as hexadecimal and
    raises [InvalidId] ([None] here) otherwise. *)

Module Bson.

Definition oid := N.

Definition hex_digit (d : N) : ascii :=
  if (d <? 10)%N then ascii_of_N (48 + d) else ascii_of_N (87 + d).

Definition hex_value (c : ascii) : option N :=
  let n := N_of_ascii c in
  if ((48 <=? n) && (n <=? 57))%N then Some (n - 48)%N
  else if ((97 <=? n) && (n <=? 102))%N then Some (n - 87)%N
  else if ((65 <=? n) && (n <=? 70))%N then Some (n - 55)%N
  else None.

(** [hexlify k n acc]: the [k] low hexadecimal digits of [n], most
    significant first, in front of [acc]. *)
Fixpoint hexlify (k : nat) (n : N) (acc : string) : string :=
  match k with
  | O => acc
  | S k' => hexlify k' (n / 16)%N (String (hex_digit (n mod 16)%N) acc)
  end.

Fixpoint fromhex (s : string) (acc : N) : option N :=
  match s with
  | EmptyString => Some acc
  | String c r =>
      match hex_value c with
      | Some d => fromhex r (16 * acc + d)%N
      | None => None
      end
  end.

(** [str(oid)] *)
Definition oid_str (o : oid) : string := hexlify 24 o "".

(** [ObjectId(s)] for a [str] argument; [None] is [InvalidId]. *)
Definition ObjectId (s : string) : option oid :=
  if (String.length s =? 24)%nat then fromhex s 0%N else None.

(** The identifiers a 12-byte ObjectId can hold. *)
Definition valid_oid (o : oid) : Prop := (o < 2 ^ 96)%N.

End Bson.

Export Bson.

(** ** Values and documents *)

(** A [datetime] is only ever stored and echoed back; it is identified with
    the text [str()] gives for it. *)
Definition datetime := string.

(** The values the handlers put into documents. *)
Inductive value :=
  | VNone
  | VStr (s : string)
  | VOid (o : oid)
  | VTime (t : datetime).

#[global] Instance value_eq_dec : EqDecision value.
Proof. solve_decision. Defined.

#[global] Instance value_countable : Countable value.
Proof.
  refine (inj_countable'
    (λ v, match v return unit + (string + (N + string)) with
          | VNone => inl ()
          | VStr s => inr (inl s)
          | VOid o => inr (inr (inl o))
          | VTime t => inr (inr (inr t))
          end)
    (λ x, match x with
          | inl _ => VNone
          | inr (inl s) => VStr s
          | inr (inr (inl o)) => VOid o
          | inr (inr (inr t)) => VTime t
          end) _).
  by intros [].
Defined.

(** Python's [str(v)]. *)
Definition py_str (v : value) : string :=
  match v with
  | VNone => "None"
  | VStr s => s
  | VOid o => oid_str o
  | VTime t => t
  end.

(** A document is a [dict] from field names to values. *)
Abbreviation doc := (gmap string value).

(** A collection lists its documents in the store's natural order; the
    database maps collection names to collections, a name not yet used
    standing for the empty collection. *)
Abbreviation collection := (list doc).
Abbreviation database := (gmap string collection).

Definition coll (name : string) (db : database) : collection :=
  default [] (db !! name).

(** ** Errors and the handler monad *)

(** [HTTPException(status_code, detail)] is what the handlers raise
    themselves; [Unhandled] is any other exception, which the framework
    answers with HTTP 500. *)
Inductive exn :=
  | HTTPException (status_code : Z) (detail : string)
  | Unhandled (what : string).

Definition status_of (e : exn) : Z :=
  match e with
  | HTTPException c _ => c
  | Unhandled _ => 500
  end.

(** A computation over a mutable state [S] that either returns or raises
    an [E]; the state it leaves behind is kept in both cases. *)
Definition St (E S A : Type) : Type := S → (E + A) * S.

#[global] Instance St_ret {E S} : MRet (St E S) := λ A (a : A) s, (inr a, s).
#[global] Instance St_bind {E S} : MBind (St E S) :=
  λ A B (f : A → St E S B) (m : St E S A) s,
    match m s with
    | (inr a, s') => f a s'
    | (inl e, s') => (inl e, s')
    end.

Definition raise {E S A} (e : E) : St E S A := λ s, (inl e, s).

(** Lift a pure computation that may raise. *)
Definition lift {E S A} (r : E + A) : St E S A := λ s, (r, s).

(** [try: body except Exception as e: handler(e)] *)
Definition try_except {E S A} (body : St E S A) (handler : E → St E S A)
  : St E S A :=
  λ s, match body s with
       | (inr a, s') => (inr a, s')
       | (inl e, s') => handler e s'
       end.

(** A handler reads and writes the database. *)
Abbreviation M := (St exn database).

(** ** The pymongo operations the handlers use *)

(** An equality-match filter [q] selects the documents that carry every
    field of [q] with the same value. *)
Definition matches (q d : doc) : bool := bool_decide (q ⊆ d).

(** The [_id] values present in a collection. *)
Definition ids (c : collection) : list value :=
  omap (λ d : doc, d !! "_id") c.

(** [collection.update_one(q, {"$set": upd})]: the first matching document
    gets the fields of [upd]; nothing happens when none matches. *)
Fixpoint update_first (q upd : doc) (c : collection) : collection :=
  match c with
  | [] => []
  | d :: r => if matches q d then (upd ∪ d) :: r else d :: update_first q upd r
  end.

(** [db[name].find_one(q)] *)
Definition find_one (name : string) (q : doc) : M (option doc) :=
  λ db, (inr (List.find (matches q) (coll name db)), db).

(** [db[name].find(q)] *)
Definition find (name : string) (q : doc) : M (list doc) :=
  λ db, (inr (List.filter (matches q) (coll name db)), db).

(** [db[name].update_one(q, {"$set": upd})] *)
Definition update_one (name : string) (q upd : doc) : M unit :=
  λ db, (inr tt, alter (update_first q upd) name db).

(** [db[name].insert_one(d)] for a document without [_id]: the driver gives
    it the generated identifier [new]; the store refuses an identifier the
    collection already holds ([DuplicateKeyError]). *)
Definition insert_one (name : string) (new : oid) (d : doc) : M oid :=
  λ db,
    if bool_decide (VOid new ∈ ids (coll name db))
    then (inl (Unhandled "DuplicateKeyError"), db)
    else (inr new, <[name := (coll name db ++ [<["_id" := VOid new]> d])%list]> db).

(** The two stages of the summary pipeline.  [$match] keeps the documents
    the filter selects; [$group] with [_id: "$field"] and
    [count: {"$sum": 1}] yields one [(key, count)] row per distinct value
    of the field, a document without the field falling under [null]. *)
Definition group_key (field : string) (d : doc) : value :=
  default VNone (d !! field).

Fixpoint bump (k : value) (rows : list (value * nat)) : list (value * nat) :=
  match rows with
  | [] => [(k, 1%nat)]
  | (k', n) :: r =>
      if decide (k = k') then (k', S n) :: r else (k', n) :: bump k r
  end.

Fixpoint group_count (field : string) (c : collection) : list (value * nat) :=
  match c with
  | [] => []
  | d :: r => bump (group_key field d) (group_count field r)
  end.

(** [db[name].aggregate([{"$match": q}, {"$group": {"_id": "$field",
    "count": {"$sum": 1}}}])] *)
Definition aggregate_match_group (name : string) (q : doc) (field : string)
  : M (list (value * nat)) :=
  λ db, (inr (group_count field (List.filter (matches q) (coll name db))), db).

(** ** Data access helpers ([database.py]) *)

(** Modelled from the spec: [create_document] of [database.py], which is
    not among the sources.  It is a thin wrapper that inserts the record
    into the named collection and returns the generated identifier, as the
    text [str(inserted_id)] that the callers hand back to [ObjectId]. *)
Definition create_document (name : string) (data : doc) (new : oid) : M string :=
  inserted_id ← insert_one name new data;
  mret (oid_str inserted_id).

(** Modelled from the spec: [get_documents] of [database.py], which is not
    among the sources.  It fetches the records of the named collection,
    optionally filtered by an equality-match document (no filter is the
    empty document, which every record matches). *)
Definition get_documents (name : string) (filter_q : doc) : M (list doc) :=
  find name filter_q.

(** ** Utilities *)

(** [serialize_id] on a document.  A falsy document (the empty [dict]) is
    returned as it is; otherwise [_id], when present, is popped and its
    [str()] stored under [id]. *)
Definition serialize_doc (d : doc) : doc :=
  if bool_decide (d = ∅) then d
  else match d !! "_id" with
       | Some v => <["id" := VStr (py_str v)]> (delete "_id" d)
       | None => d
       end.

(** [serialize_id(doc)], where [doc] may be [None] (falsy as well, and
    returned as it is). *)
Definition serialize_id (o : option doc) : option doc :=
  serialize_doc <$> o.

(** ** [datetime.strptime] and [strftime] for the format ["%Y-%m-%d"]

    [strptime] turns the format into the regular expression
    [(?P<Y>\d\d\d\d)-(?P<m>1[0-2]|0[1-9]|[1-9])-(?P<d>3[0-1]|[1-2]\d|0[1-9]|[1-9]| [1-9])],
    matches it at the start of the text, refuses text left over after the
    match, and builds the date, which refuses year 0 and days the month
    does not have.  The matcher below is that expression over ASCII text,
    each group taking the rest of the expression as its continuation so
    that alternatives are tried in order. *)

Module Datetime.

Record date := { year : Z; month : Z; day : Z }.

Definition in_range (lo hi c : ascii) : bool :=
  ((N_of_ascii lo <=? N_of_ascii c) && (N_of_ascii c <=? N_of_ascii hi))%N.

Definition is_digit (c : ascii) : bool := in_range "0" "9" c.

Definition digit_value (c : ascii) : Z := Z.of_N (N_of_ascii c) - 48.

Definition orelse {A} (x y : option A) : option A :=
  match x with Some _ => x | None => y end.

Definition group_Y {A} (l : list ascii) (k : Z → list ascii → option A)
  : option A :=
  match l with
  | a :: b :: c :: d :: r =>
      if is_digit a && is_digit b && is_digit c && is_digit d
      then k (1000 * digit_value a + 100 * digit_value b
              + 10 * digit_value c + digit_value d) r
      else None
  | _ => None
  end.

Definition literal {A} (ch : ascii) (l : list ascii)
    (k : list ascii → option A) : option A :=
  match l with
  | c :: r => if Ascii.eqb c ch then k r else None
  | [] => None
  end.

(** Two characters, the first a fixed one or one of a range. *)
Definition two {A} (lo1 hi1 lo2 hi2 : ascii) (value : ascii → ascii → Z)
    (l : list ascii) (k : Z → list ascii → option A) : option A :=
  match l with
  | a :: b :: r =>
      if in_range lo1 hi1 a && in_range lo2 hi2 b then k (value a b) r else None
  | _ => None
  end.

Definition one {A} (lo hi : ascii) (l : list ascii)
    (k : Z → list ascii → option A) : option A :=
  match l with
  | a :: r => if in_range lo hi a then k (digit_value a) r else None
  | _ => None
  end.

Definition two_digits (a b : ascii) : Z := 10 * digit_value a + digit_value b.

(** [1[0-2]|0[1-9]|[1-9]] *)
Definition group_m {A} (l : list ascii) (k : Z → list ascii → option A)
  : option A :=
  orelse (two "1" "1" "0" "2" two_digits l k)
   (orelse (two "0" "0" "1" "9" two_digits l k)
         (one "1" "9" l k)).

(** [3[0-1]|[1-2]\d|0[1-9]|[1-9]| [1-9]]; [int(" 5")] is [5]. *)
Definition group_d {A} (l : list ascii) (k : Z → list ascii → option A)
  : option A :=
  orelse (two "3" "3" "0" "1" two_digits l k)
   (orelse (two "1" "2" "0" "9" two_digits l k)
   (orelse (two "0" "0" "1" "9" two_digits l k)
   (orelse (one "1" "9" l k)
         (two " " " " "1" "9" (λ _ b, digit_value b) l k)))).

(** The match: the three numbers and the text left over. *)
Definition regex_ymd (l : list ascii) : option (Z * Z * Z * list ascii) :=
  group_Y l (λ y l,
  literal "-" l (λ l,
  group_m l (λ m l,
  literal "-" l (λ l,
  group_d l (λ d l, Some (y, m, d, l)))))).

Definition is_leap (y : Z) : bool :=
  (y mod 4 =? 0) && (negb (y mod 100 =? 0) || (y mod 400 =? 0)).

Definition days_in_month (y m : Z) : Z :=
  if m =? 2 then (if is_leap y then 29 else 28)
  else if (m =? 4) || (m =? 6) || (m =? 9) || (m =? 11) then 30
  else 31.

(** [datetime.strptime(s, "%Y-%m-%d")]; [None] is [ValueError]. *)
Definition strptime (s : string) : option date :=
  match regex_ymd (list_ascii_of_string s) with
  | Some (y, m, d, []) =>
      if (1 <=? y) && (d <=? days_in_month y m)
      then Some {| year := y; month := m; day := d |}
      else None
  | _ => None
  end.

Definition digit_char (n : Z) : ascii := ascii_of_N (48 + Z.to_N (n mod 10)).

(** [d.strftime("%Y-%m-%d")]: the year on four digits, month and day on
    two, zero-filled. *)
Definition strftime (d : date) : string :=
  string_of_list_ascii
    [ digit_char (year d / 1000); digit_char (year d / 100);
      digit_char (year d / 10); digit_char (year d); "-"%char;
      digit_char (month d / 10); digit_char (month d); "-"%char;
      digit_char (day d / 10); digit_char (day d) ].

End Datetime.

(** [normalize_date(date_str)] *)
Definition normalize_date (date_str : string) : exn + string :=
  match Datetime.strptime date_str with
  | Some d => inr (Datetime.strftime d)
  | None => inl (HTTPException 400 "Invalid date format. Use YYYY-MM-DD")
  end.

(** ** Request bodies *)

(** [Literal['present', 'absent', 'late']] *)
Inductive attendance_status := Present | Absent | Late.

Definition status_str (s : attendance_status) : string :=
  match s with
  | Present => "present"
  | Absent => "absent"
  | Late => "late"
  end.

(** An [Optional[str]] as a stored value. *)
Definition opt_str (o : option string) : value :=
  match o with
  | Some s => VStr s
  | None => VNone
  end.

Module DriverCreate.
Record t := { name : string; phone : option string; license_no : option string }.

(** [payload.model_dump()] *)
Definition model_dump (p : t) : doc :=
  {[ "name" := VStr (name p);
     "phone" := opt_str (phone p);
     "license_no" := opt_str (license_no p) ]}.
End DriverCreate.

Module AttendanceCreate.
Record t := {
  driver_id : string;
  date : string;
  status : attendance_status;
  notes : option string
}.
End AttendanceCreate.

(** What the outside world settles for one request. *)
Record world := {
  utcnow : datetime;     (* the reading of [datetime.utcnow()] *)
  generated_id : oid     (* the ObjectId generated for an inserted document *)
}.

(** ** Truthiness *)

(** [if doc:] for the result of [find_one]: [None] and the empty document
    are falsy. *)
Definition truthy_doc (o : option doc) : bool :=
  match o with
  | Some d => negb (bool_decide (d = ∅))
  | None => false
  end.

(** [if s:] for an [Optional[str]]: [None] and the empty text are falsy. *)
Definition truthy_str (o : option string) : option string :=
  match o with
  | Some s => if bool_decide (s = "") then None else Some s
  | None => None
  end.

(** [ObjectId(s)] where the caller does not catch [InvalidId]. *)
Definition ObjectId_or_raise (s : string) : M oid :=
  match ObjectId s with
  | Some o => mret o
  | None => raise (Unhandled "InvalidId")
  end.

(** ** Driver endpoints *)

(** [POST /drivers] *)
Definition create_driver (payload : DriverCreate.t) (w : world)
  : M (option doc) :=
  let driver := DriverCreate.model_dump payload in
  new_id ← create_document "driver" driver (generated_id w);
  o ← ObjectId_or_raise new_id;
  d ← find_one "driver" {[ "_id" := VOid o ]};
  mret (serialize_id d).

(** [GET /drivers] *)
Definition list_drivers : M (list doc) :=
  docs ← get_documents "driver" ∅;
  mret (serialize_doc <$> docs).

(** ** Attendance endpoints *)

(** [POST /attendance] *)
Definition mark_attendance (payload : AttendanceCreate.t) (w : world)
  : M (option doc) :=
  let driver_id := AttendanceCreate.driver_id payload in
  match ObjectId driver_id with
  | None => raise (HTTPException 400 "Invalid driver_id")
  | Some driver_obj_id =>
      driver ← find_one "driver" {[ "_id" := VOid driver_obj_id ]};
      if negb (truthy_doc driver)
      then raise (HTTPException 404 "Driver not found")
      else
        date_norm ← lift (normalize_date (AttendanceCreate.date payload));
        existing ← find_one "attendance"
                     {[ "driver_id" := VStr driver_id; "date" := VStr date_norm ]};
        let data : doc :=
          {[ "driver_id" := VStr driver_id;
             "date" := VStr date_norm;
             "status" := VStr (status_str (AttendanceCreate.status payload));
             "notes" := opt_str (AttendanceCreate.notes payload) ]} in
        if truthy_doc existing
        then
          match existing ≫= (λ e : doc, e !! "_id") with
          | None => raise (Unhandled "KeyError: '_id'")
          | Some existing_id =>
              update_one "attendance" {[ "_id" := existing_id ]}
                         (<["updated_at" := VTime (utcnow w)]> data);;
              d ← find_one "attendance" {[ "_id" := existing_id ]};
              mret (serialize_id d)
          end
        else
          new_id ← create_document "attendance" data (generated_id w);
          o ← ObjectId_or_raise new_id;
          d ← find_one "attendance" {[ "_id" := VOid o ]};
          mret (serialize_id d)
  end.

(** [GET /attendance] *)
Definition get_attendance (date driver_id : option string) : M (list doc) :=
  let filter_q : doc := ∅ in
  filter_q ←
    match truthy_str date with
    | Some s => d ← lift (normalize_date s); mret (<["date" := VStr d]> filter_q)
    | None => mret filter_q
    end;
  filter_q ←
    match truthy_str driver_id with
    | Some s =>
        match ObjectId s with
        | None => raise (HTTPException 400 "Invalid driver_id")
        | Some _ => mret (<["driver_id" := VStr s]> filter_q)
        end
    | None => mret filter_q
    end;
  docs ← get_documents "attendance" filter_q;
  mret (serialize_doc <$> docs).

Module Summary.
Record t := {
  driver_id : string;
  total_days : nat;
  present : nat;
  absent : nat;
  late : nat
}.
End Summary.

(** [{r["_id"]: r["count"] for r in results}] *)
Definition dict_of_rows (rows : list (value * nat)) : gmap value nat :=
  foldl (λ m r, <[r.1 := r.2]> m) ∅ rows.

(** [GET /attendance/summary] *)
Definition attendance_summary (driver_id : string) : M Summary.t :=
  match ObjectId driver_id with
  | None => raise (HTTPException 400 "Invalid driver_id")
  | Some _ =>
      results ← aggregate_match_group "attendance"
                  {[ "driver_id" := VStr driver_id ]} "status";
      let counts := dict_of_rows results in
      let total_days := sum_list (snd <$> map_to_list counts) in
      mret {| Summary.driver_id := driver_id;
              Summary.total_days := total_days;
              Summary.present := default 0%nat (counts !! VStr "present");
              Summary.absent := default 0%nat (counts !! VStr "absent");
              Summary.late := default 0%nat (counts !! VStr "late") |}
  end.

(** ** Diagnostic endpoint *)

Module Diagnostics.
Record t := {
  backend : string;
  database : string;
  database_url : option string;
  database_name : option string;
  connection_status : string;
  collections : list string
}.

Definition set_database (v : string) (r : t) : t :=
  {| backend := backend r; database := v; database_url := database_url r;
     database_name := database_name r;
     connection_status := connection_status r; collections := collections r |}.

Definition set_database_url (v : string) (r : t) : t :=
  {| backend := backend r; database := database r; database_url := Some v;
     database_name := database_name r;
     connection_status := connection_status r; collections := collections r |}.

Definition set_database_name (v : string) (r : t) : t :=
  {| backend := backend r; database := database r;
     database_url := database_url r; database_name := Some v;
     connection_status := connection_status r; collections := collections r |}.

Definition set_connection_status (v : string) (r : t) : t :=
  {| backend := backend r; database := database r;
     database_url := database_url r; database_name := database_name r;
     connection_status := v; collections := collections r |}.

Definition set_collections (v : list string) (r : t) : t :=
  {| backend := backend r; database := database r;
     database_url := database_url r; database_name := database_name r;
     connection_status := connection_status r; collections := v |}.
End Diagnostics.

(** The module-level [db] as the diagnostic endpoint sees it: reading
    [db.name] and calling [db.list_collection_names()] each either give a
    result or raise; an exception is kept as its [str()] text. *)
Record db_handle := {
  db_name : string + string;
  list_collection_names : string + list string
}.

(** [response[key] = v] *)
Definition assign (f : Diagnostics.t → Diagnostics.t)
  : St string Diagnostics.t unit :=
  λ r, (inr tt, f r).

(** [str(e)[:50]] *)
Definition first50 (e : string) : string := substring 0 50 e.

(** [GET /test].  [db] is [None] when no database is configured;
    [DATABASE_URL] is [os.getenv("DATABASE_URL")].  The result is [inl]
    when an exception leaves the handler. *)
Definition test_database (db : option db_handle) (DATABASE_URL : option string)
  : string + Diagnostics.t :=
  let response :=
    {| Diagnostics.backend := "✅ Running";
       Diagnostics.database := "❌ Not Available";
       Diagnostics.database_url := None;
       Diagnostics.database_name := None;
       Diagnostics.connection_status := "Not Connected";
       Diagnostics.collections := [] |} in
  let body : St string Diagnostics.t unit :=
    try_except
      (match db with
       | Some h =>
           assign (Diagnostics.set_database "✅ Available");;
           assign (Diagnostics.set_database_url
                     (match truthy_str DATABASE_URL with
                      | Some _ => "✅ Set"
                      | None => "❌ Not Set"
                      end));;
           name ← lift (db_name h);
           assign (Diagnostics.set_database_name name);;
           assign (Diagnostics.set_connection_status "Connected");;
           try_except
             (names ← lift (list_collection_names h);
              assign (Diagnostics.set_collections (take 10 names));;
              assign (Diagnostics.set_database "✅ Connected & Working"))
             (λ e, assign (Diagnostics.set_database
                             ("⚠️ Connected but Error: " ++ first50 e)))
       | None => mret tt
       end)
      (λ e, assign (Diagnostics.set_database ("❌ Error: " ++ first50 e))) in
  match body response with
  | (inr _, response) => inr response
  | (inl e, _) => inl e
  end.

(** ** Vocabulary of the statements *)

(** What MongoDB guarantees of a collection: every document carries an
    [_id], and no two documents carry the same one. *)
Definition has_id (d : doc) : Prop := is_Some (d !! "_id").

Definition wf_collection (c : collection) : Prop :=
  Forall has_id c ∧ NoDup (ids c).

#[global] Instance wf_collection_dec c : Decision (wf_collection c).
Proof. unfold wf_collection, has_id. apply _. Defined.

(** [r] is an Attendance Record of the pair [(driver_id, date)]. *)
Definition is_record_of (driver_id date_norm : string) (r : doc) : Prop :=
  r !! "driver_id" = Some (VStr driver_id) ∧ r !! "date" = Some (VStr date_norm).

#[global] Instance is_record_of_dec i d r : Decision (is_record_of i d r).
Proof. unfold is_record_of. apply _. Defined.

(** The Attendance Records of a pair, in store order. *)
Definition records_of (driver_id date_norm : string) (c : collection)
  : collection :=
  filter (is_record_of driver_id date_norm) c.

(** Marks made one after the other, each with what the world settles for
    it: the responses in order, and the database left behind. *)
Fixpoint mark_all (calls : list (AttendanceCreate.t * world)) (db : database)
  : list (exn + option doc) * database :=
  match calls with
  | [] => ([], db)
  | (p, w) :: rest =>
      let '(r, db') := mark_attendance p w db in
      let '(rs, db'') := mark_all rest db' in
      (r :: rs, db'')
  end.

(** A response that is not an error. *)
Definition successful {A} (r : exn + A) : Prop :=
  match r with
  | inr _ => True
  | inl _ => False
  end.

#[global] Instance successful_dec {A} (r : exn + A) : Decision (successful r).
Proof. destruct r; apply _. Defined.

(** The collection holds one record of the pair, with the given status and
    notes, and no other document shares its [_id]. *)
Definition sole_record (i dn : string) (st nt : value) (c : collection) : Prop :=
  ∃ pre r post v,
    c = (pre ++ r :: post)%list
    ∧ is_record_of i dn r
    ∧ r !! "_id" = Some v
    ∧ r !! "status" = Some st
    ∧ r !! "notes" = Some nt
    ∧ Forall (λ x : doc, ¬ is_record_of i dn x ∧ x !! "_id" ≠ Some v)
             (pre ++ post)%list.

(** The record [POST /attendance] writes for a payload. *)
Definition st_of (p : AttendanceCreate.t) : value :=
  VStr (status_str (AttendanceCreate.status p)).
Definition nt_of (p : AttendanceCreate.t) : value :=
  opt_str (AttendanceCreate.notes p).

Definition data_of (p : AttendanceCreate.t) (dn : string) : doc :=
  {[ "driver_id" := VStr (AttendanceCreate.driver_id p); "date" := VStr dn;
     "status" := st_of p; "notes" := nt_of p ]}.

(** The status and notes the pair's record ends with: those of the last
    call, or the initial ones when there is no call. *)
Definition final_fields (calls : list (AttendanceCreate.t * world))
    (st nt : value) : value * value :=
  match last calls with
  | Some lc => (st_of lc.1, nt_of lc.1)
  | None => (st, nt)
  end.

(** The Attendance Records of a driver, in store order. *)
Definition driver_records (driver_id : string) (c : collection) : collection :=
  filter (λ r : doc, r !! "driver_id" = Some (VStr driver_id)) c.

(** How many records of [c] carry the status [s]. *)
Definition with_status (s : string) (c : collection) : nat :=
  length (filter (λ r : doc, r !! "status" = Some (VStr s)) c).

(** The record carries one of the three enumerated statuses. *)
Definition enumerated (r : doc) : Prop :=
  r !! "status" = Some (VStr "present")
  ∨ r !! "status" = Some (VStr "absent")
  ∨ r !! "status" = Some (VStr "late").

#[global] Instance enumerated_dec r : Decision (enumerated r).
Proof. unfold enumerated. apply _. Defined.

(** The records a query asks for: those with the normalized date, when a
    date is given, and the driver identifier, when one is given. *)
Definition wanted (date_norm driver_id : option string) (r : doc) : Prop :=
  match date_norm with
  | Some dn => r !! "date" = Some (VStr dn)
  | None => True
  end
  ∧ match driver_id with
    | Some i => r !! "driver_id" = Some (VStr i)
    | None => True
    end.

#[global] Instance wanted_dec dn i r : Decision (wanted dn i r).
Proof. unfold wanted. destruct dn, i; apply _. Defined.

(** [returned] is the client-facing form of the record [stored]: the
    internal [_id] is gone, [id] holds its text, and every other field is
    as stored. *)
Definition public_view (stored returned : doc) : Prop :=
  ∃ v, stored !! "_id" = Some v
       ∧ returned !! "_id" = None
       ∧ returned !! "id" = Some (VStr (py_str v))
       ∧ ∀ k, k ≠ "_id" → k ≠ "id" → returned !! k = stored !! k.

(** The filter [GET /attendance] builds, and what it selects. *)
Definition query_filter (date_norm driver_id : option string) : doc :=
  let q : doc := match date_norm with
                 | Some dn => <["date" := VStr dn]> ∅
                 | None => ∅
                 end in
  match driver_id with
  | Some i => <["driver_id" := VStr i]> q
  | None => q
  end.

(** The text has the form [YYYY-MM-DD]: four digits, a dash, two digits,
    a dash, two digits. *)
Definition ymd_form (s : string) : bool :=
  match list_ascii_of_string s with
  | [y1; y2; y3; y4; s1; m1; m2; s2; d1; d2] =>
      forallb Datetime.is_digit [y1; y2; y3; y4; m1; m2; d1; d2]
      && Ascii.eqb s1 "-" && Ascii.eqb s2 "-"
  | _ => false
  end.

(** The HTTP status a handler's outcome is answered with. *)
Definition response_status {A} (r : exn + A) : Z :=
  match r with
  | inl e => status_of e
  | inr _ => 200
  end.

(** One or two characters, each a digit or a blank. *)
Definition short_field (F : list ascii) : Prop :=
  (length F = 1 ∨ length F = 2)%nat
  ∧ Forall (λ c, Datetime.is_digit c = true ∨ c = " "%char) F.

(** The texts [strptime] can accept: a year of four digits, a dash, a
    month of one or two characters, a dash, a day of one or two
    characters, the characters of month and day being digits or blanks. *)
Definition date_shape (s : string) : Prop :=
  ∃ Y M D : list ascii,
    list_ascii_of_string s = (Y ++ "-"%char :: M ++ "-"%char :: D)%list
    ∧ length Y = 4%nat ∧ Forall (λ c, Datetime.is_digit c = true) Y
    ∧ short_field M ∧ short_field D.

(** ** A small scenario

    The example of the specification: driver Alice, marked present on
    2024-01-05 and then late for the same day. *)

Module Sample.
Definition alice : DriverCreate.t :=
  {| DriverCreate.name := "Alice";
     DriverCreate.phone := None;
     DriverCreate.license_no := None |}.

Definition D1 : string := "000000000000000000000001".

Definition alice_doc : doc :=
  {[ "_id" := VOid 1%N; "name" := VStr "Alice";
     "phone" := VNone; "license_no" := VNone ]}.

Definition db_alice : database := {[ "driver" := [alice_doc] ]}.

Definition first_mark : AttendanceCreate.t :=
  {| AttendanceCreate.driver_id := D1;
     AttendanceCreate.date := "2024-01-05";
     AttendanceCreate.status := Present;
     AttendanceCreate.notes := None |}.

Definition second_mark : AttendanceCreate.t :=
  {| AttendanceCreate.driver_id := D1;
     AttendanceCreate.date := "2024-1-5";
     AttendanceCreate.status := Late;
     AttendanceCreate.notes := Some "traffic" |}.

Definition R1 : doc :=
  {[ "_id" := VOid 2%N; "driver_id" := VStr D1;
     "date" := VStr "2024-01-05"; "status" := VStr "present";
     "notes" := VNone ]}.

Definition db_marked : database := <["attendance" := [R1]]> db_alice.

(** A record whose status is none of the three, as other writers of the
   store could leave it. *)
Definition R_sick : doc :=
  {[ "_id" := VOid 9%N; "driver_id" := VStr D1;
     "date" := VStr "2024-01-06"; "status" := VStr "sick";
     "notes" := VNone ]}.

Definition db_sick : database := <["attendance" := [R1; R_sick]]> db_alice.

(** A mark for an identifier no driver has, with a text that is no date. *)
Definition unknown_driver_mark : AttendanceCreate.t :=
  {| AttendanceCreate.driver_id := "00000000000000000000000f";
     AttendanceCreate.date := "not-a-date";
     AttendanceCreate.status := Present;
     AttendanceCreate.notes := None |}.

Definition w1 : world := {| utcnow := "2024-01-05 08:00:00"; generated_id := 1%N |}.
Definition w2 : world := {| utcnow := "2024-01-05 09:00:00"; generated_id := 2%N |}.
Definition w3 : world := {| utcnow := "2024-01-05 09:30:00"; generated_id := 3%N |}.
End Sample.

(** ** Vocabulary of the further properties *)

(** At most one Attendance Record for every pair. *)
Definition unique_pairs (c : collection) : Prop :=
  ∀ i dn, (length (records_of i dn c) ≤ 1)%nat.

(** The record an update leaves in place of [r]. *)
Definition remarked (p : AttendanceCreate.t) (w : world) (r : doc) : doc :=
  <["updated_at" := VTime (utcnow w)]>
    (<["notes" := nt_of p]> (<["status" := st_of p]> r)).

(** The record an insert appends. *)
Definition new_record (p : AttendanceCreate.t) (dn : string) (w : world) : doc :=
  <["_id" := VOid (generated_id w)]> (data_of p dn).

(** The document [POST /drivers] stores. *)
Definition new_driver (p : DriverCreate.t) (w : world) : doc :=
  <["_id" := VOid (generated_id w)]> (DriverCreate.model_dump p).

(** The summary of the records [mine] of a driver. *)
Definition summary_of (driver_id : string) (mine : collection) : Summary.t :=
  {| Summary.driver_id := driver_id;
     Summary.total_days := length mine;
     Summary.present := with_status "present" mine;
     Summary.absent := with_status "absent" mine;
     Summary.late := with_status "late" mine |}.

(** Two spellings of one identifier: a store where Alice, whose
    identifier has the hexadecimal digit [a], is marked under the
    lower-case text, and a mark sent with the upper-case text. *)
Definition alice_A : string := "00000000000000000000000a".

Definition db_A : database :=
  {[ "driver" := [ {[ "_id" := VOid 10%N; "name" := VStr "Alice" ]} ];
     "attendance" :=
       [ {[ "_id" := VOid 2%N; "driver_id" := VStr alice_A;
            "date" := VStr "2024-01-05"; "status" := VStr "present";
            "notes" := VNone ]} ] ]}.

Definition mark_upper : AttendanceCreate.t :=
  {| AttendanceCreate.driver_id := "00000000000000000000000A";
     AttendanceCreate.date := "2024-01-05";
     AttendanceCreate.status := Absent;
     AttendanceCreate.notes := None |}.

(** * Properties *)

Local Open Scope list_scope.

(** ** ObjectId: text and back *)

Section bson_facts.
Local Open Scope N_scope.

Lemma hex_value_digit d : d < 16 → hex_value (hex_digit d) = Some d.
Proof.
  intros Hd.
  assert (Hcases : d = 0 ∨ d = 1 ∨ d = 2 ∨ d = 3 ∨ d = 4 ∨ d = 5 ∨ d = 6
          ∨ d = 7 ∨ d = 8 ∨ d = 9 ∨ d = 10 ∨ d = 11 ∨ d = 12 ∨ d = 13
          ∨ d = 14 ∨ d = 15) by lia.
  repeat (destruct Hcases as [-> | Hcases]; [reflexivity |]).
  by subst.
Qed.

Lemma length_hexlify k n acc :
  String.length (hexlify k n acc) = (k + String.length acc)%nat.
Proof.
  revert n acc. induction k as [|k IH]; intros n acc; simpl; [done |].
  rewrite IH. simpl. lia.
Qed.

Lemma fromhex_hexlify k n acc a :
  n < 16 ^ N.of_nat k →
  fromhex (hexlify k n acc) a = fromhex acc (a * 16 ^ N.of_nat k + n).
Proof.
  revert n acc a. induction k as [|k IH]; intros n acc a Hn.
  - simpl in *. f_equal. lia.
  - rewrite Nat2N.inj_succ, N.pow_succ_r' in Hn.
    cbn [hexlify]. rewrite IH.
    2:{ apply N.Div0.div_lt_upper_bound. lia. }
    cbn [fromhex]. rewrite hex_value_digit by (apply N.mod_lt; lia).
    f_equal. rewrite Nat2N.inj_succ, N.pow_succ_r'.
    pose proof (N.div_mod n 16 ltac:(lia)). lia.
Qed.

(** A 12-byte identifier survives [ObjectId(str(o))]. *)
Lemma ObjectId_oid_str o : valid_oid o → ObjectId (oid_str o) = Some o.
Proof.
  unfold valid_oid, ObjectId, oid_str. intros Ho.
  rewrite length_hexlify.
  change (24 + String.length "" =? 24)%nat with true. cbv iota.
  assert (Hpow : 16 ^ N.of_nat 24 = 2 ^ 96) by (vm_compute; reflexivity).
  rewrite (fromhex_hexlify 24 o "" 0) by (rewrite Hpow; exact Ho).
  reflexivity.
Qed.
End bson_facts.

(** ** Filters and collections *)

Lemma matches_spec (q d : doc) :
  matches q d = true ↔ ∀ k v, q !! k = Some v → d !! k = Some v.
Proof.
  unfold matches. rewrite bool_decide_eq_true. apply map_subseteq_spec.
Qed.

Lemma matches_empty (d : doc) : matches ∅ d = true.
Proof. apply matches_spec. intros k v. by rewrite lookup_empty. Qed.

Lemma matches_field (k : string) (v : value) (d : doc) :
  matches {[ k := v ]} d = true ↔ d !! k = Some v.
Proof.
  rewrite matches_spec. split.
  - intros H. apply H. by rewrite lookup_singleton_eq.
  - intros H k' v'. rewrite lookup_singleton_Some. by intros [<- <-].
Qed.

Lemma matches_two (k1 k2 : string) (v1 v2 : value) (d : doc) :
  k1 ≠ k2 →
  matches {[ k1 := v1; k2 := v2 ]} d = true
  ↔ d !! k1 = Some v1 ∧ d !! k2 = Some v2.
Proof.
  intros Hne. rewrite matches_spec. split.
  - intros H. split; apply H; by simplify_map_eq.
  - intros [H1 H2] k v Hk.
    apply lookup_insert_Some in Hk as [[<- <-] | [_ Hk]]; [done |].
    apply lookup_singleton_Some in Hk as [<- <-]. done.
Qed.

Lemma matches_nonempty (q d : doc) : q ≠ ∅ → matches q d = true → d ≠ ∅.
Proof.
  intros Hq Hm ->. apply Hq. apply map_empty. intros k.
  destruct (q !! k) as [v|] eqn:Hk; [| done].
  pose proof (proj1 (matches_spec _ _) Hm k v Hk) as Hd.
  by rewrite lookup_empty in Hd.
Qed.

Lemma elem_of_ids (v : value) (c : collection) :
  v ∈ ids c ↔ ∃ d, d ∈ c ∧ d !! "_id" = Some v.
Proof. unfold ids. apply list_elem_of_omap. Qed.

Lemma find_id_None (v : value) (c : collection) :
  List.find (matches {[ "_id" := v ]}) c = None ↔ v ∉ ids c.
Proof.
  rewrite elem_of_ids. split.
  - intros Hf (d & Hd & Hv).
    apply list_elem_of_In in Hd.
    apply (find_none _ _ Hf) in Hd. apply matches_field in Hv. congruence.
  - intros Hn. destruct (List.find _ c) as [d|] eqn:Hf; [| done].
    apply find_some in Hf as [Hd Hm]. exfalso. apply Hn. exists d.
    split; [by apply list_elem_of_In | by apply matches_field].
Qed.

Lemma coll_insert (name : string) (c : collection) (db : database) :
  coll name (<[name := c]> db) = c.
Proof. unfold coll. by rewrite lookup_insert_eq. Qed.

(** ** [POST /attendance]: the rejections *)

(** Running a bind: the first computation's outcome decides. *)
Lemma bind_run {E S A B} (m : St E S A) (f : A → St E S B) (s : S) :
  (m ≫= f) s =
  match m s with
  | (inr a, s') => f a s'
  | (inl e, s') => (inl e, s')
  end.
Proof. reflexivity. Qed.

Lemma find_driver_falsy (o : oid) (c : collection) :
  truthy_doc (List.find (matches {[ "_id" := VOid o ]}) c) = false
  ↔ VOid o ∉ ids c.
Proof.
  rewrite <- find_id_None.
  destruct (List.find _ c) as [d|] eqn:Hf; simpl; [| done].
  apply find_some in Hf as [_ Hm].
  apply matches_nonempty in Hm.
  - rewrite bool_decide_eq_false_2 by done. simpl. split; done.
  - intros H. apply (f_equal (lookup "_id")) in H.
    by rewrite lookup_singleton_eq, lookup_empty in H.
Qed.

(** C2.  [POST /attendance] answers 400 when [driver_id] is not a valid
    identifier, 404 when it is valid but no Driver carries it (whatever the
    date is), and looks at the date only once the Driver is found, where a
    date that does not normalize gives 400.  Whenever the handler raises an
    [HTTPException] the status is 400 or 404 and the database is the one it
    started from, so nothing was written. *)
Theorem mark_attendance_rejects
    (p : AttendanceCreate.t) (w : world) (db : database) :
  (ObjectId (AttendanceCreate.driver_id p) = None →
     mark_attendance p w db = (inl (HTTPException 400 "Invalid driver_id"), db))
  ∧ (∀ o, ObjectId (AttendanceCreate.driver_id p) = Some o →
          VOid o ∉ ids (coll "driver" db) →
     mark_attendance p w db = (inl (HTTPException 404 "Driver not found"), db))
  ∧ (∀ o e, ObjectId (AttendanceCreate.driver_id p) = Some o →
            VOid o ∈ ids (coll "driver" db) →
            normalize_date (AttendanceCreate.date p) = inl e →
     mark_attendance p w db = (inl e, db) ∧ status_of e = 400)
  ∧ (∀ code detail db',
       mark_attendance p w db = (inl (HTTPException code detail), db') →
       db' = db ∧ (code = 400 ∨ code = 404)).
Proof.
  split; [| split; [| split]].
  - intros Hid. unfold mark_attendance. by rewrite Hid.
  - intros o Hid Hno. unfold mark_attendance. rewrite Hid.
    rewrite bind_run. unfold find_one.
    apply find_driver_falsy in Hno. by rewrite Hno.
  - intros o e Hid Hin Hdate. unfold mark_attendance. rewrite Hid.
    rewrite bind_run. unfold find_one.
    destruct (truthy_doc _) eqn:Ht.
    2:{ apply find_driver_falsy in Ht. done. }
    simpl. rewrite bind_run. unfold lift. rewrite Hdate. split; [done |].
    unfold normalize_date in Hdate. destruct (Datetime.strptime _); by simplify_eq.
  - intros code detail db'. unfold mark_attendance.
    destruct (ObjectId _) as [o|]; [| intros [= <- <- <-]; auto].
    rewrite bind_run. unfold find_one at 1.
    destruct (truthy_doc _); simpl; [| intros [= <- <- <-]; auto].
    rewrite bind_run. unfold lift.
    destruct (normalize_date _) as [e|dn] eqn:Hdate.
    { unfold normalize_date in Hdate.
      destruct (Datetime.strptime _); simplify_eq.
      intros [= <- <- <-]; auto. }
    rewrite bind_run. unfold find_one at 1.
    destruct (truthy_doc _).
    + destruct (_ ≫= _) as [existing_id|]; [| intros [= ]].
      rewrite bind_run. unfold update_one. rewrite bind_run. unfold find_one.
      intros [= ].
    + rewrite bind_run. unfold create_document. rewrite bind_run.
      unfold insert_one. case_bool_decide; [intros [= ] |].
      unfold mret, St_ret. rewrite bind_run. unfold ObjectId_or_raise.
      destruct (ObjectId _); [| intros [= ]].
      unfold mret, St_ret. rewrite bind_run. unfold find_one. intros [= ].
Qed.

(** ** [POST /attendance]: the writes *)

Lemma matches_pair (i dn : string) (r : doc) :
  matches {[ "driver_id" := VStr i; "date" := VStr dn ]} r = true
  ↔ is_record_of i dn r.
Proof. by apply matches_two. Qed.

Lemma matches_pair_false (i dn : string) (r : doc) :
  matches {[ "driver_id" := VStr i; "date" := VStr dn ]} r = false
  ↔ ¬ is_record_of i dn r.
Proof. rewrite <- matches_pair. destruct (matches _ r); split; congruence. Qed.

Lemma find_app_first {A} (f : A → bool) (pre : list A) (r : A) (post : list A) :
  Forall (λ x, f x = false) pre → f r = true →
  List.find f (pre ++ r :: post) = Some r.
Proof.
  intros Hpre Hr. induction Hpre as [|x pre Hx _ IH]; simpl.
  - by rewrite Hr.
  - by rewrite Hx.
Qed.

Lemma update_first_app (q upd : doc) (pre : collection) (r : doc) (post : collection) :
  Forall (λ x, matches q x = false) pre → matches q r = true →
  update_first q upd (pre ++ r :: post) = pre ++ (upd ∪ r) :: post.
Proof.
  intros Hpre Hr. induction Hpre as [|x pre Hx _ IH]; simpl.
  - by rewrite Hr.
  - by rewrite Hx, IH.
Qed.

Lemma find_none_Forall {A} (f : A → bool) (l : list A) :
  List.find f l = None ↔ Forall (λ x, f x = false) l.
Proof.
  induction l as [|x l IH]; simpl.
  - split; [constructor | done].
  - destruct (f x) eqn:Hx.
    + split; [done |]. intros H. inversion H; congruence.
    + rewrite IH. split; [by constructor | by inversion 1].
Qed.

Lemma ids_app (c1 c2 : collection) : ids (c1 ++ c2) = ids c1 ++ ids c2.
Proof. apply omap_app. Qed.

Lemma ids_cons (r : doc) (v : value) (c : collection) :
  r !! "_id" = Some v → ids (r :: c) = v :: ids c.
Proof. intros H. unfold ids. simpl. by rewrite H. Qed.

Lemma wf_no_earlier_id (pre : collection) (r : doc) (post : collection) (v : value) :
  wf_collection (pre ++ r :: post) → r !! "_id" = Some v →
  Forall (λ x, matches {[ "_id" := v ]} x = false) pre.
Proof.
  intros [_ Hnd] Hv. rewrite ids_app, (ids_cons _ v) in Hnd by done.
  apply NoDup_app in Hnd as (_ & Hdisj & _).
  apply Forall_forall. intros x Hx.
  destruct (matches _ x) eqn:Hm; [| done].
  apply matches_field in Hm. exfalso. apply (Hdisj v).
  - apply elem_of_ids. eauto.
  - left.
Qed.

Lemma alter_coll (name : string) (f : collection → collection) (db : database) :
  coll name db ≠ [] → alter f name db = <[name := f (coll name db)]> db.
Proof.
  unfold coll. intros Hne. destruct (db !! name) as [c|] eqn:Hc; [| done].
  simpl. apply map_eq. intros k. destruct (decide (name = k)) as [<- |].
  - by rewrite lookup_alter_eq, lookup_insert_eq, Hc.
  - by rewrite lookup_alter_ne, lookup_insert_ne.
Qed.

Lemma set_over_record (i dn : string) (st nt : value) (t : datetime) (r : doc) :
  is_record_of i dn r →
  <["updated_at" := VTime t]>
    ({[ "driver_id" := VStr i; "date" := VStr dn; "status" := st; "notes" := nt ]} : doc)
    ∪ r
  = <["updated_at" := VTime t]> (<["notes" := nt]> (<["status" := st]> r)).
Proof.
  intros [Hi Hd]. apply map_eq. intros k.
  destruct (decide (k = "updated_at")) as [-> |].
  { rewrite lookup_union_l' by (by simplify_map_eq). by simplify_map_eq. }
  destruct (decide (k = "notes")) as [-> |].
  { rewrite lookup_union_l' by (by simplify_map_eq). by simplify_map_eq. }
  destruct (decide (k = "status")) as [-> |].
  { rewrite lookup_union_l' by (by simplify_map_eq). by simplify_map_eq. }
  destruct (decide (k = "driver_id")) as [-> |].
  { rewrite lookup_union_l' by (by simplify_map_eq). by simplify_map_eq. }
  destruct (decide (k = "date")) as [-> |].
  { rewrite lookup_union_l' by (by simplify_map_eq). by simplify_map_eq. }
  rewrite lookup_union_r by (by simplify_map_eq). by simplify_map_eq.
Qed.

Lemma records_of_nil_Forall (i dn : string) (c : collection) :
  records_of i dn c = [] ↔ Forall (λ x, ¬ is_record_of i dn x) c.
Proof.
  unfold records_of. induction c as [|x c IH].
  - split; [constructor | done].
  - rewrite filter_cons. destruct (decide (is_record_of i dn x)).
    + split; [done |]. by inversion 1.
    + rewrite IH. split; [by constructor | by inversion 1].
Qed.

Lemma Forall_not_record (i dn : string) (c : collection) :
  Forall (λ x, ¬ is_record_of i dn x) c →
  Forall (λ x, matches {[ "driver_id" := VStr i; "date" := VStr dn ]} x = false) c.
Proof.
  intros H. eapply Forall_impl; [exact H |].
  intros x. by rewrite matches_pair_false.
Qed.

Lemma find_app_new (v : value) (c : collection) (r : doc) :
  v ∉ ids c → r !! "_id" = Some v →
  List.find (matches {[ "_id" := v ]}) (c ++ [r]) = Some r.
Proof.
  intros Hv Hr. apply find_app_first.
  - apply find_none_Forall. by apply find_id_None.
  - by apply matches_field.
Qed.

(** C3.  [POST /attendance] for a known driver and a date that normalizes.
    When the pair already has a record, the first such record [r] gets
    [status], [notes] and [updated_at] (the current time) overwritten and
    nothing else: its [_id], [driver_id], [date] and every other field stay,
    as does every other record, and the answer is the serialized record as
    re-read.  When the pair has no record, a record with exactly [driver_id],
    [date], [status], [notes] and the generated [_id] is appended, without
    [updated_at], and the answer is that record serialized. *)
Theorem mark_attendance_writes
    (p : AttendanceCreate.t) (w : world) (db : database) (o : oid) (dn : string) :
  let i := AttendanceCreate.driver_id p in
  let st := VStr (status_str (AttendanceCreate.status p)) in
  let nt := opt_str (AttendanceCreate.notes p) in
  let c := coll "attendance" db in
  ObjectId i = Some o →
  VOid o ∈ ids (coll "driver" db) →
  normalize_date (AttendanceCreate.date p) = inr dn →
  wf_collection c →
  (∀ pre r post,
     c = pre ++ r :: post →
     Forall (λ x, ¬ is_record_of i dn x) pre →
     is_record_of i dn r →
     let r' := <["updated_at" := VTime (utcnow w)]>
                 (<["notes" := nt]> (<["status" := st]> r)) in
     mark_attendance p w db
     = (inr (Some (serialize_doc r')), <["attendance" := pre ++ r' :: post]> db)
     ∧ r' !! "_id" = r !! "_id"
     ∧ r' !! "driver_id" = r !! "driver_id"
     ∧ r' !! "date" = r !! "date"
     ∧ ∀ k, k ≠ "status" → k ≠ "notes" → k ≠ "updated_at" → r' !! k = r !! k)
  ∧ (records_of i dn c = [] →
     valid_oid (generated_id w) →
     VOid (generated_id w) ∉ ids c →
     let r : doc := {[ "_id" := VOid (generated_id w);
                       "driver_id" := VStr i; "date" := VStr dn;
                       "status" := st; "notes" := nt ]} in
     mark_attendance p w db
     = (inr (Some (serialize_doc r)), <["attendance" := c ++ [r]]> db)
     ∧ dom r = {[ "_id"; "driver_id"; "date"; "status"; "notes" ]}
     ∧ r !! "updated_at" = None).
Proof.
  intros i st nt c Hid Hdrv Hdate Hwf.
  assert (Htruthy : truthy_doc
            (List.find (matches {[ "_id" := VOid o ]}) (coll "driver" db)) = true).
  { destruct (truthy_doc _) eqn:Ht; [done |]. by apply find_driver_falsy in Ht. }
  split.
  - intros pre r post Hc Hpre Hr r'.
    split.
    2:{ subst r'. repeat split; intros; by simplify_map_eq. }
    destruct (Hwf) as [Hhas _]. fold c in Hc.
    assert (Hrid : is_Some (r !! "_id")).
    { rewrite Hc in Hhas. apply Forall_app in Hhas as [_ Hhas]. by inversion Hhas. }
    destruct Hrid as [v Hv].
    unfold mark_attendance. fold i. rewrite Hid.
    rewrite bind_run. unfold find_one at 1. rewrite Htruthy. cbn [negb].
    rewrite bind_run. unfold lift. rewrite Hdate.
    rewrite bind_run. unfold find_one at 1. fold c. rewrite Hc.
    rewrite (find_app_first _ pre r post);
      [| by apply Forall_not_record | by apply matches_pair].
    assert (Hne : r ≠ ∅) by (intros ->; by rewrite lookup_empty in Hv).
    cbn [truthy_doc]. rewrite bool_decide_eq_false_2 by done. cbn [negb mbind option_bind].
    rewrite Hv.
    rewrite bind_run. unfold update_one.
    rewrite alter_coll by (fold c; rewrite Hc; by destruct pre).
    fold c. rewrite Hc.
    rewrite update_first_app;
      [| by eapply wf_no_earlier_id; [rewrite <- Hc |] | by apply matches_field].
    fold st nt. rewrite set_over_record by done. fold r'.
    rewrite bind_run. unfold find_one. rewrite coll_insert.
    rewrite (find_app_first _ pre r' post); [done | |].
    + eapply wf_no_earlier_id; [rewrite <- Hc; exact Hwf | done].
    + apply matches_field. subst r'. by simplify_map_eq.
  - intros Hnone Hvalid Hfresh r.
    split; [| split].
    3:{ subst r. by simplify_map_eq. }
    2:{ subst r. rewrite !dom_insert_L, dom_singleton_L. set_solver. }
    unfold mark_attendance. fold i. rewrite Hid.
    rewrite bind_run. unfold find_one at 1. rewrite Htruthy. cbn [negb].
    rewrite bind_run. unfold lift. rewrite Hdate.
    rewrite bind_run. unfold find_one at 1. fold c.
    rewrite (proj2 (find_none_Forall _ c))
      by (by apply Forall_not_record, records_of_nil_Forall).
    cbn [truthy_doc].
    rewrite bind_run. unfold create_document. rewrite bind_run.
    unfold insert_one. fold c. rewrite bool_decide_eq_false_2 by done.
    unfold mret, St_ret. rewrite bind_run. unfold ObjectId_or_raise.
    rewrite ObjectId_oid_str by done.
    unfold mret, St_ret. cbv beta iota.
    rewrite bind_run. unfold find_one. rewrite coll_insert.
    fold st nt. fold r.
    rewrite (find_app_new _ c r); [done | done |].
    subst r. by simplify_map_eq.
Qed.

Import Sample.

(** ** The example of the specification, run *)

Example scenario_create :
  create_driver alice w1 ∅
  = (inr (Some {[ "id" := VStr D1; "name" := VStr "Alice";
                  "phone" := VNone; "license_no" := VNone ]}), db_alice).
Proof. vm_compute. reflexivity. Qed.

Example scenario_first_mark :
  mark_attendance first_mark w2 db_alice
  = (inr (Some {[ "id" := VStr "000000000000000000000002";
                  "driver_id" := VStr D1; "date" := VStr "2024-01-05";
                  "status" := VStr "present"; "notes" := VNone ]}),
     db_marked).
Proof. vm_compute. reflexivity. Qed.

Example scenario_second_mark :
  (mark_attendance second_mark w3 db_marked).1
  = inr (Some {[ "id" := VStr "000000000000000000000002";
                 "driver_id" := VStr D1; "date" := VStr "2024-01-05";
                 "status" := VStr "late"; "notes" := VStr "traffic";
                 "updated_at" := VTime "2024-01-05 09:30:00" ]}).
Proof. vm_compute. reflexivity. Qed.

Example scenario_summary :
  (attendance_summary D1 (mark_attendance second_mark w3 db_marked).2).1
  = inr {| Summary.driver_id := D1; Summary.total_days := 1;
           Summary.present := 0; Summary.absent := 0; Summary.late := 1 |}.
Proof. vm_compute. reflexivity. Qed.

Example scenario_unknown_driver :
  mark_attendance unknown_driver_mark w2 db_alice
  = (inl (HTTPException 404 "Driver not found"), db_alice).
Proof. vm_compute. reflexivity. Qed.

Example dates_normalized :
  normalize_date "2024-01-05" = inr "2024-01-05"
  ∧ normalize_date "2024-1-5" = inr "2024-01-05"
  ∧ normalize_date "2024-02-29" = inr "2024-02-29"
  ∧ response_status (normalize_date "2023-02-29") = 400
  ∧ response_status (normalize_date "2024/01/01") = 400
  ∧ response_status (normalize_date "not-a-date") = 400
  ∧ response_status (normalize_date "2024-13-01") = 400
  ∧ response_status (normalize_date "2024-01-05T00:00") = 400
  ∧ response_status (normalize_date "") = 400.
Proof. vm_compute. repeat split. Qed.

Example identifiers_parsed :
  ObjectId D1 = Some 1%N
  ∧ ObjectId "00000000000000000000000F" = Some 15%N
  ∧ oid_str 15%N = "00000000000000000000000f"
  ∧ ObjectId "abc" = None
  ∧ ObjectId "00000000000000000000000g" = None
  ∧ ObjectId "" = None.
Proof. vm_compute. repeat split. Qed.

(** Closed decidable facts about the sample data, settled by evaluation. *)
Ltac by_computation := apply (bool_decide_unpack _); vm_compute; exact I.

(** The second mark of the scenario overwrites the record of the first; the
    first mark, on the database holding only Alice, appends it. *)
Lemma mark_attendance_writes_witness :
  mark_attendance second_mark w3 db_marked
  = (inr (Some (serialize_doc
        (<["updated_at" := VTime (utcnow w3)]>
           (<["notes" := VStr "traffic"]> (<["status" := VStr "late"]> R1))))),
     <["attendance" :=
         [<["updated_at" := VTime (utcnow w3)]>
            (<["notes" := VStr "traffic"]> (<["status" := VStr "late"]> R1))]]>
       db_marked)
  ∧ mark_attendance first_mark w2 db_alice = (inr (Some (serialize_doc R1)), db_marked).
Proof.
  split.
  - refine (proj1 (proj1 (mark_attendance_writes second_mark w3 db_marked 1%N
                     "2024-01-05" _ _ _ _) [] R1 [] _ _ _)).
    + reflexivity.
    + by_computation.
    + reflexivity.
    + by_computation.
    + reflexivity.
    + constructor.
    + by_computation.
  - refine (proj1 (proj2 (mark_attendance_writes first_mark w2 db_alice 1%N
                     "2024-01-05" _ _ _ _) _ _ _)).
    + reflexivity.
    + by_computation.
    + reflexivity.
    + by_computation.
    + reflexivity.
    + unfold valid_oid. simpl. lia.
    + by_computation.
Defined.

(** ** [POST /attendance]: one record per pair *)

(** What a mark that succeeds has done. *)
Lemma mark_attendance_success p w db res db' :
  mark_attendance p w db = (inr res, db') →
  let i := AttendanceCreate.driver_id p in
  let c := coll "attendance" db in
  ∃ o dn,
    ObjectId i = Some o
    ∧ VOid o ∈ ids (coll "driver" db)
    ∧ normalize_date (AttendanceCreate.date p) = inr dn
    ∧ ((∃ r v,
          List.find (matches {[ "driver_id" := VStr i; "date" := VStr dn ]}) c = Some r
          ∧ r !! "_id" = Some v
          ∧ db' = alter (update_first {[ "_id" := v ]}
                           (<["updated_at" := VTime (utcnow w)]> (data_of p dn)))
                        "attendance" db)
       ∨ (List.find (matches {[ "driver_id" := VStr i; "date" := VStr dn ]}) c = None
          ∧ (VOid (generated_id w) ∉ ids c)
          ∧ db' = <["attendance" :=
                      c ++ [<["_id" := VOid (generated_id w)]> (data_of p dn)]]> db)).
Proof.
  intros Hrun i c. unfold mark_attendance in Hrun. fold i in Hrun.
  destruct (ObjectId i) as [o|] eqn:Hid; [| done].
  rewrite bind_run in Hrun. unfold find_one at 1 in Hrun.
  destruct (truthy_doc _) eqn:Hdrv; cbn [negb] in Hrun; [| done].
  rewrite bind_run in Hrun. unfold lift in Hrun.
  destruct (normalize_date _) as [e|dn] eqn:Hdate; [done |].
  exists o, dn. split; [done |]. split.
  { destruct (decide (VOid o ∈ ids (coll "driver" db))) as [|Hn]; [done |].
    apply find_driver_falsy in Hn. congruence. }
  split; [done |].
  rewrite bind_run in Hrun. unfold find_one at 1 in Hrun. fold c in Hrun.
  destruct (List.find _ c) as [r|] eqn:Hfind.
  - left. cbn [truthy_doc] in Hrun.
    rewrite bool_decide_eq_false_2 in Hrun.
    2:{ apply find_some in Hfind as [_ Hm]. eapply matches_nonempty; [| exact Hm].
        intros H. apply (f_equal (lookup "driver_id")) in H.
        by rewrite lookup_insert_eq, lookup_empty in H. }
    cbn [negb mbind option_bind] in Hrun.
    destruct (r !! "_id") as [v|] eqn:Hv; [| done].
    exists r, v. split; [done |]. split; [done |].
    rewrite bind_run in Hrun. unfold update_one in Hrun.
    rewrite bind_run in Hrun. unfold find_one in Hrun.
    injection Hrun as _ <-. reflexivity.
  - right. cbn [truthy_doc] in Hrun. split; [done |].
    rewrite bind_run in Hrun. unfold create_document in Hrun.
    rewrite bind_run in Hrun. unfold insert_one in Hrun. fold c in Hrun.
    case_bool_decide as Hfresh; [done |]. split; [done |].
    unfold mret, St_ret in Hrun. rewrite bind_run in Hrun.
    unfold ObjectId_or_raise in Hrun.
    destruct (ObjectId (oid_str _)); [| done].
    unfold mret, St_ret in Hrun. rewrite bind_run in Hrun.
    unfold find_one in Hrun. injection Hrun as _ <-. reflexivity.
Qed.

Lemma coll_alter_update (q upd : doc) (db : database) :
  coll "attendance" (alter (update_first q upd) "attendance" db)
  = update_first q upd (coll "attendance" db).
Proof.
  unfold coll. rewrite lookup_alter_eq.
  by destruct (db !! "attendance").
Qed.

Lemma records_of_sole i dn st nt c :
  sole_record i dn st nt c →
  ∃ r, records_of i dn c = [r]
       ∧ r !! "status" = Some st ∧ r !! "notes" = Some nt.
Proof.
  intros (pre & r & post & v & -> & Hr & _ & Hst & Hnt & Hothers).
  exists r. split; [| done].
  apply Forall_app in Hothers as [Hpre Hpost].
  unfold records_of. rewrite filter_app, filter_cons_True by done.
  assert (Hnil : ∀ l : collection,
            Forall (λ x : doc, ¬ is_record_of i dn x ∧ x !! "_id" ≠ Some v) l →
            filter (is_record_of i dn) l = []).
  { intros l Hl. apply (records_of_nil_Forall i dn l).
    eapply Forall_impl; [exact Hl |]. by intros x [? _]. }
  by rewrite !Hnil.
Qed.

(** The first successful mark of a pair that has no record. *)
Lemma mark_first p w db res db' i dn :
  AttendanceCreate.driver_id p = i →
  normalize_date (AttendanceCreate.date p) = inr dn →
  records_of i dn (coll "attendance" db) = [] →
  mark_attendance p w db = (inr res, db') →
  sole_record i dn (st_of p) (nt_of p) (coll "attendance" db').
Proof.
  intros <- Hdate Hnone Hrun.
  apply mark_attendance_success in Hrun
    as (o & dn' & _ & _ & Hdate' & Hcase).
  assert (dn' = dn) as -> by congruence.
  apply records_of_nil_Forall in Hnone.
  destruct Hcase as [(r & v & Hfind & _) | (_ & Hfresh & ->)].
  { apply Forall_not_record, find_none_Forall in Hnone. congruence. }
  rewrite coll_insert.
  exists (coll "attendance" db), (<["_id" := VOid (generated_id w)]> (data_of p dn)),
    [], (VOid (generated_id w)).
  unfold data_of. repeat split; try by simplify_map_eq.
  rewrite app_nil_r. apply Forall_forall. intros x Hx. split.
  - by apply (proj1 (Forall_forall _ _) Hnone).
  - intros Hid. apply Hfresh, elem_of_ids. eauto.
Qed.

(** A later successful mark of the pair. *)
Lemma mark_again p w db res db' i dn st nt :
  AttendanceCreate.driver_id p = i →
  normalize_date (AttendanceCreate.date p) = inr dn →
  sole_record i dn st nt (coll "attendance" db) →
  mark_attendance p w db = (inr res, db') →
  sole_record i dn (st_of p) (nt_of p) (coll "attendance" db').
Proof.
  intros <- Hdate (pre & r & post & v & Hc & Hr & Hv & _ & _ & Hothers) Hrun.
  apply mark_attendance_success in Hrun
    as (o & dn' & _ & _ & Hdate' & Hcase).
  assert (dn' = dn) as -> by congruence.
  pose proof Hothers as Hsplit. apply Forall_app in Hsplit as [Hpre Hpost].
  assert (Hfind : List.find
            (matches {[ "driver_id" := VStr (AttendanceCreate.driver_id p);
                        "date" := VStr dn ]}) (coll "attendance" db) = Some r).
  { rewrite Hc. apply find_app_first; [| by apply matches_pair].
    apply Forall_not_record. eapply Forall_impl; [exact Hpre |]. by intros x [? _]. }
  destruct Hcase as [(r0 & v0 & Hfind0 & Hv0 & ->) | (Hfind0 & _)]; [| congruence].
  assert (r0 = r) as -> by congruence. assert (v0 = v) as -> by congruence.
  rewrite coll_alter_update, Hc, update_first_app.
  2:{ eapply Forall_impl; [exact Hpre |]. intros x [_ Hx].
      destruct (matches _ x) eqn:Hm; [| done]. by apply matches_field in Hm. }
  2:{ by apply matches_field. }
  unfold data_of. rewrite set_over_record by done.
  eexists pre, _, post, v. split; [reflexivity |].
  destruct Hr as [Hi Hd].
  repeat split; try by simplify_map_eq.
Qed.

Lemma mark_all_keeps_sole i dn calls : ∀ db st nt,
  Forall (λ c : AttendanceCreate.t * world,
            AttendanceCreate.driver_id c.1 = i
            ∧ normalize_date (AttendanceCreate.date c.1) = inr dn) calls →
  sole_record i dn st nt (coll "attendance" db) →
  Forall successful (mark_all calls db).1 →
  sole_record i dn (final_fields calls st nt).1 (final_fields calls st nt).2
              (coll "attendance" (mark_all calls db).2).
Proof.
  induction calls as [|[p w] rest IH]; intros db st nt Hcalls Hsole Hok.
  - done.
  - inversion Hcalls as [|? ? [Hi Hd] Hrest]; subst.
    cbn [mark_all] in *.
    destruct (mark_attendance p w db) as [res db'] eqn:Hrun.
    destruct (mark_all rest db') as [rs db''] eqn:Hall.
    cbn [fst snd] in *. inversion Hok as [|? ? Hres Hoks]; subst.
    destruct res as [e|res]; [done |].
    pose proof (mark_again p w db res db' _ dn st nt eq_refl Hd Hsole Hrun) as Hsole'.
    specialize (IH db' _ _ Hrest Hsole'). rewrite Hall in IH.
    specialize (IH Hoks). cbn [fst snd] in IH.
    unfold final_fields in *. rewrite last_cons.
    by destruct (last rest).
Qed.

(** C1.  Take any pair [(driver_id, date)] and any sequence of one or more
    [POST /attendance] calls for it, made one after the other and all
    successful, from a database holding no record of the pair.  Afterwards
    the pair has exactly one Attendance Record, and its [status] and
    [notes] are those of the last call. *)
Theorem one_record_per_pair
    (i dn : string) (calls : list (AttendanceCreate.t * world))
    (lc : AttendanceCreate.t * world) (db : database) :
  Forall (λ c : AttendanceCreate.t * world,
            AttendanceCreate.driver_id c.1 = i
            ∧ normalize_date (AttendanceCreate.date c.1) = inr dn) calls →
  last calls = Some lc →
  records_of i dn (coll "attendance" db) = [] →
  Forall successful (mark_all calls db).1 →
  ∃ r, records_of i dn (coll "attendance" (mark_all calls db).2) = [r]
       ∧ r !! "status" = Some (VStr (status_str (AttendanceCreate.status lc.1)))
       ∧ r !! "notes" = Some (opt_str (AttendanceCreate.notes lc.1)).
Proof.
  intros Hcalls Hlast Hnone Hok.
  destruct calls as [|[p w] rest]; [done |].
  inversion Hcalls as [|? ? [Hi Hd] Hrest]; subst.
  cbn [mark_all] in *.
  destruct (mark_attendance p w db) as [res db'] eqn:Hrun.
  pose proof (mark_all_keeps_sole (AttendanceCreate.driver_id p) dn rest db'
                (st_of p) (nt_of p) Hrest) as Hkeep.
  destruct (mark_all rest db') as [rs db''] eqn:Hall.
  cbn [fst snd] in *. inversion Hok as [|? ? Hres Hoks]; subst.
  destruct res as [e|res]; [done |].
  pose proof (mark_first p w db res db' _ dn eq_refl Hd Hnone Hrun) as Hsole.
  specialize (Hkeep Hsole Hoks).
  apply records_of_sole in Hkeep as (r & Hr & Hst & Hnt).
  exists r. split; [done |].
  unfold final_fields in *. rewrite last_cons in Hlast.
  destruct (last rest) as [lc'|]; simplify_eq; done.
Qed.

(** The two marks of the scenario, on the database holding only Alice. *)
Lemma one_record_per_pair_witness :
  ∃ r, records_of D1 "2024-01-05"
         (coll "attendance"
            (mark_all [(first_mark, w2); (second_mark, w3)] db_alice).2) = [r]
       ∧ r !! "status" = Some (VStr "late")
       ∧ r !! "notes" = Some (VStr "traffic").
Proof.
  apply (one_record_per_pair D1 "2024-01-05"
           [(first_mark, w2); (second_mark, w3)] (second_mark, w3) db_alice).
  - repeat constructor.
  - reflexivity.
  - reflexivity.
  - by_computation.
Defined.

(** ** [GET /attendance/summary] *)

Lemma List_filter_stdpp {A} (f : A → bool) (P : A → Prop) `{∀ x, Decision (P x)}
    (l : list A) :
  (∀ x, f x = true ↔ P x) → List.filter f l = filter P l.
Proof.
  intros Hf. induction l as [|x l IH]; [done |].
  simpl. rewrite filter_cons, IH.
  destruct (decide (P x)) as [HP | HP].
  - by rewrite (proj2 (Hf x) HP).
  - destruct (f x) eqn:Hx; [| done]. by apply Hf in Hx.
Qed.

Lemma dict_of_rows_snoc rows k n :
  dict_of_rows (rows ++ [(k, n)]) = <[k := n]> (dict_of_rows rows).
Proof. unfold dict_of_rows. by rewrite foldl_snoc. Qed.

Lemma dict_of_rows_reverse rows :
  dict_of_rows rows = list_to_map (reverse rows).
Proof.
  induction rows as [|[k n] rows IH] using rev_ind; [done |].
  by rewrite dict_of_rows_snoc, reverse_snoc, list_to_map_cons, IH.
Qed.

Lemma bump_keys k rows k' :
  k' ∈ (bump k rows).*1 ↔ k' = k ∨ k' ∈ rows.*1.
Proof.
  induction rows as [|[k0 n] rows IH]; simpl.
  - rewrite list_elem_of_singleton, elem_of_nil. tauto.
  - destruct (decide (k = k0)) as [-> |]; simpl; rewrite !elem_of_cons.
    + tauto.
    + rewrite IH. tauto.
Qed.

Lemma bump_NoDup k rows : NoDup rows.*1 → NoDup (bump k rows).*1.
Proof.
  induction rows as [|[k0 n] rows IH]; simpl; intros Hnd.
  - apply NoDup_singleton.
  - apply NoDup_cons in Hnd as [Hk0 Hnd].
    destruct (decide (k = k0)) as [-> |]; simpl.
    + by apply NoDup_cons.
    + apply NoDup_cons. split; [| by apply IH].
      rewrite bump_keys. intros [-> | ?]; done.
Qed.

Lemma group_count_NoDup field c : NoDup (group_count field c).*1.
Proof.
  induction c as [|d c IH]; simpl; [constructor | by apply bump_NoDup].
Qed.

Lemma list_to_map_bump k rows :
  list_to_map (bump k rows)
  =@{gmap value nat}
    <[k := S (default 0%nat ((list_to_map rows : gmap value nat) !! k))]>
      (list_to_map rows).
Proof.
  induction rows as [|[k0 n] rows IH]; simpl; [done |].
  destruct (decide (k = k0)) as [-> |]; simpl.
  - by rewrite lookup_insert_eq, insert_insert_eq.
  - rewrite IH, lookup_insert_ne by done. by apply insert_insert_ne.
Qed.

Lemma dict_of_group_count field c :
  dict_of_rows (group_count field c) = list_to_map (group_count field c).
Proof.
  rewrite dict_of_rows_reverse. apply list_to_map_proper.
  - rewrite fmap_reverse, reverse_Permutation. apply group_count_NoDup.
  - apply reverse_Permutation.
Qed.

(** The dictionary the handler builds from the rows of the pipeline. *)
Lemma counts_cons field d c :
  dict_of_rows (group_count field (d :: c))
  = <[group_key field d :=
        S (default 0%nat (dict_of_rows (group_count field c) !! group_key field d))]>
      (dict_of_rows (group_count field c)).
Proof. rewrite !dict_of_group_count. apply list_to_map_bump. Qed.

Lemma counts_lookup field c k :
  default 0%nat (dict_of_rows (group_count field c) !! k)
  = length (filter (λ d : doc, group_key field d = k) c).
Proof.
  induction c as [|d c IH]; [done |].
  rewrite counts_cons, filter_cons.
  destruct (decide (group_key field d = k)) as [-> | Hne].
  - rewrite lookup_insert_eq. simpl. by rewrite IH.
  - by rewrite lookup_insert_ne.
Qed.

Lemma sum_values_insert (m : gmap value nat) k :
  sum_list (snd <$> map_to_list (<[k := S (default 0%nat (m !! k))]> m))
  = S (sum_list (snd <$> map_to_list m)).
Proof.
  destruct (m !! k) as [n|] eqn:Hk; simpl.
  - rewrite <- insert_delete_eq.
    rewrite map_to_list_insert by apply lookup_delete_eq.
    rewrite <- (map_to_list_delete m k n) by done. done.
  - by rewrite map_to_list_insert.
Qed.

Lemma counts_total field c :
  sum_list (snd <$> map_to_list (dict_of_rows (group_count field c)))
  = length c.
Proof.
  induction c as [|d c IH]; [done |].
  by rewrite counts_cons, sum_values_insert, IH.
Qed.

Lemma counts_status (s : string) (c : collection) :
  default 0%nat (dict_of_rows (group_count "status" c) !! VStr s)
  = with_status s c.
Proof.
  rewrite counts_lookup. unfold with_status. f_equal.
  apply list_filter_iff. intros d. unfold group_key.
  destruct (d !! "status") as [v|]; simpl; split; congruence.
Qed.

(** Every record has one of the three statuses or none of them. *)
Lemma length_by_status (c : collection) :
  length c
  = (with_status "present" c + with_status "absent" c + with_status "late" c
     + length (filter (λ r, ¬ enumerated r) c))%nat.
Proof.
  unfold with_status. induction c as [|r c IH]; [done |].
  rewrite !filter_cons. cbn [length]. rewrite IH. unfold enumerated.
  repeat case_decide; cbn [length]; try lia; exfalso;
    intuition congruence.
Qed.

(** C4.  [GET /attendance/summary] with a valid [driver_id] answers
    [{driver_id, total_days, present, absent, late}]: each of [present],
    [absent], [late] is the number of the driver's records with that status
    (0 when there is none), [total_days] is the number of all the driver's
    records, whatever their status, so it is the three counts plus the
    records with any other status, and it equals [present + absent + late]
    when the driver's records carry only the three enumerated statuses. *)
Theorem summary_counts (driver_id : string) (db : database) :
  is_Some (ObjectId driver_id) →
  let mine := driver_records driver_id (coll "attendance" db) in
  ∃ s, attendance_summary driver_id db = (inr s, db)
       ∧ Summary.driver_id s = driver_id
       ∧ Summary.present s = with_status "present" mine
       ∧ Summary.absent s = with_status "absent" mine
       ∧ Summary.late s = with_status "late" mine
       ∧ Summary.total_days s = length mine
       ∧ Summary.total_days s
         = (Summary.present s + Summary.absent s + Summary.late s
            + length (filter (λ r, ¬ enumerated r) mine))%nat
       ∧ (Forall enumerated mine →
          Summary.total_days s
          = (Summary.present s + Summary.absent s + Summary.late s)%nat).
Proof.
  intros [o Hid] mine. unfold attendance_summary. rewrite Hid.
  rewrite bind_run. unfold aggregate_match_group.
  rewrite (List_filter_stdpp _
             (λ r : doc, r !! "driver_id" = Some (VStr driver_id))).
  2:{ intros r. apply matches_field. }
  fold (driver_records driver_id (coll "attendance" db)). fold mine.
  eexists. split; [reflexivity |]. cbn [Summary.driver_id Summary.present
    Summary.absent Summary.late Summary.total_days].
  rewrite !counts_status, counts_total.
  repeat split.
  - apply length_by_status.
  - intros Hall. rewrite (length_by_status mine) at 1.
    assert (Hnone : filter (λ r, ¬ enumerated r) mine = []).
    { clear -Hall. induction Hall as [|r l Hr _ IH]; [done |].
      rewrite filter_cons_False; [done |]. intros H. by apply H. }
    rewrite Hnone. simpl. lia.
Qed.

(** The summary of Alice after her first mark, and after a record with a
    status outside the enumeration has reached the store. *)
Lemma summary_counts_witness :
  ∃ s, attendance_summary D1 db_sick = (inr s, db_sick)
       ∧ Summary.total_days s = 2%nat
       ∧ Summary.present s = 1%nat
       ∧ Summary.absent s = 0%nat
       ∧ Summary.late s = 0%nat.
Proof.
  destruct (summary_counts D1 db_sick) as (s & Hrun & _ & Hp & Ha & Hl & Ht & _).
  - exists 1%N. reflexivity.
  - exists s. rewrite Ht, Hp, Ha, Hl. split; [exact Hrun |].
    repeat split; reflexivity.
Defined.

(** ** [GET /attendance] *)

Lemma filter_matches_empty (c : collection) : List.filter (matches ∅) c = c.
Proof.
  induction c as [|d c IH]; [done |].
  simpl. by rewrite matches_empty, IH.
Qed.

Lemma matches_query_filter dn i r :
  matches (query_filter dn i) r = true ↔ wanted dn i r.
Proof.
  unfold query_filter, wanted. rewrite ?insert_empty.
  destruct dn as [dn|], i as [i|]; rewrite ?insert_empty.
  - rewrite (matches_two "driver_id" "date") by done. tauto.
  - rewrite matches_field. tauto.
  - rewrite matches_field. tauto.
  - rewrite matches_empty. tauto.
Qed.

(** [GET /attendance] once its parameters pass validation. *)
Lemma get_attendance_run date driver_id dn db :
  match truthy_str date with
  | Some s => ∃ d, normalize_date s = inr d ∧ dn = Some d
  | None => dn = None
  end →
  match truthy_str driver_id with
  | Some s => is_Some (ObjectId s)
  | None => True
  end →
  get_attendance date driver_id db
  = (inr (serialize_doc <$>
            filter (wanted dn (truthy_str driver_id)) (coll "attendance" db)), db).
Proof.
  intros Hdate Hid. unfold get_attendance.
  rewrite bind_run.
  assert (Hfirst :
    match truthy_str date with
    | Some s => d ← lift (normalize_date s); mret (<["date" := VStr d]> (∅ : doc))
    | None => mret ∅
    end db = (inr (query_filter dn None), db)).
  { destruct (truthy_str date) as [s|].
    - destruct Hdate as (d & Hd & ->). rewrite bind_run. unfold lift. by rewrite Hd.
    - by subst. }
  rewrite Hfirst. rewrite bind_run.
  assert (Hsecond :
    match truthy_str driver_id with
    | Some s =>
        match ObjectId s with
        | Some _ => mret (<["driver_id" := VStr s]> (query_filter dn None))
        | None => raise (HTTPException 400 "Invalid driver_id")
        end
    | None => mret (query_filter dn None)
    end db = (inr (query_filter dn (truthy_str driver_id)), db)).
  { destruct (truthy_str driver_id) as [s|]; [| done].
    destruct Hid as [o ->]. done. }
  rewrite Hsecond. rewrite bind_run. unfold get_documents, find.
  unfold mret, St_ret. do 3 f_equal.
  apply List_filter_stdpp, matches_query_filter.
Qed.

Lemma filter_wanted_none (c : collection) : filter (wanted None None) c = c.
Proof.
  induction c as [|r c IH]; [done |].
  rewrite filter_cons_True by done. by rewrite IH.
Qed.

(** C5.  [GET /attendance] whose parameters pass validation answers the
    Attendance Records, serialized and in store order, that match the
    equality filter made of the parameters given (a parameter counts as
    given when it is present and not empty): with neither parameter these
    are all the records of the collection, and with a date alone exactly
    the records whose stored date equals the normalized form of that
    date. *)
Theorem get_attendance_filters
    (date driver_id : option string) (dn : option string) (db : database) :
  match truthy_str date with
  | Some s => ∃ d, normalize_date s = inr d ∧ dn = Some d
  | None => dn = None
  end →
  match truthy_str driver_id with
  | Some s => is_Some (ObjectId s)
  | None => True
  end →
  ∃ rs,
    get_attendance date driver_id db = (inr (serialize_doc <$> rs), db)
    ∧ rs = filter (wanted dn (truthy_str driver_id)) (coll "attendance" db)
    ∧ (truthy_str date = None → truthy_str driver_id = None →
       rs = coll "attendance" db)
    ∧ (truthy_str driver_id = None →
       ∀ d, dn = Some d →
            rs = filter (λ r : doc, r !! "date" = Some (VStr d))
                        (coll "attendance" db)).
Proof.
  intros Hdate Hid. eexists. split; [by apply get_attendance_run |].
  split; [done |]. split.
  - intros Hd Hi. rewrite Hd in Hdate. subst dn. rewrite Hi.
    apply filter_wanted_none.
  - intros -> d ->. apply list_filter_iff. intros r. unfold wanted. tauto.
Qed.

(** Asking the scenario's store for 2024-1-6 gives the one record stored
    under 2024-01-06. *)
Lemma get_attendance_filters_witness :
  ∃ rs,
    get_attendance (Some "2024-1-6") None db_sick = (inr (serialize_doc <$> rs), db_sick)
    ∧ rs = [R_sick].
Proof.
  destruct (get_attendance_filters (Some "2024-1-6") None (Some "2024-01-06") db_sick)
    as (rs & Hrun & Hrs & _).
  - exists "2024-01-06". split; reflexivity.
  - exact I.
  - exists rs. split; [exact Hrun |]. rewrite Hrs. reflexivity.
Defined.

(** C9.  In [GET /attendance] a [date] or [driver_id] given as the empty
    text is treated as absent: the answer is the one for the request
    without that parameter, so with both empty it is every record and no
    400, although the empty text is neither a date that normalizes nor a
    valid identifier. *)
Theorem get_attendance_empty_parameters
    (date driver_id : option string) (db : database) :
  get_attendance (Some "") driver_id db = get_attendance None driver_id db
  ∧ get_attendance date (Some "") db = get_attendance date None db
  ∧ get_attendance (Some "") (Some "") db
    = (inr (serialize_doc <$> coll "attendance" db), db)
  ∧ (∃ detail, normalize_date "" = inl (HTTPException 400 detail))
  ∧ ObjectId "" = None.
Proof.
  repeat split; try reflexivity.
  - rewrite (get_attendance_run (Some "") (Some "") None db) by done.
    change (truthy_str (Some "")) with (@None string).
    by rewrite filter_wanted_none.
  - by eexists.
Qed.

(** ** Serialized responses *)

Lemma serialize_doc_has_id (d : doc) (v : value) :
  d !! "_id" = Some v →
  serialize_doc d = <["id" := VStr (py_str v)]> (delete "_id" d).
Proof.
  intros Hv. unfold serialize_doc. rewrite Hv.
  rewrite bool_decide_eq_false_2; [done |].
  intros ->. by rewrite lookup_empty in Hv.
Qed.

Lemma serialize_doc_view (d : doc) : has_id d → public_view d (serialize_doc d).
Proof.
  intros [v Hv]. exists v. rewrite (serialize_doc_has_id d v Hv).
  split; [done |]. split; [| split].
  - by rewrite lookup_insert_ne, lookup_delete_eq.
  - by rewrite lookup_insert_eq.
  - intros k H1 H2. by rewrite lookup_insert_ne, lookup_delete_ne.
Qed.

Lemma serialize_list_view (c : collection) :
  Forall has_id c → Forall2 public_view c (serialize_doc <$> c).
Proof.
  induction 1 as [|d c Hd _ IH]; constructor; [by apply serialize_doc_view | done].
Qed.

(** A record re-read by its [_id] and serialized. *)
Lemma refetched_view (v : value) (c : collection) (r : doc) :
  serialize_id (List.find (matches {[ "_id" := v ]}) c) = Some r →
  ∃ d, d ∈ c ∧ public_view d r.
Proof.
  destruct (List.find _ c) as [d|] eqn:Hf; [| done].
  intros [= <-]. apply find_some in Hf as [Hd Hm].
  exists d. split; [by apply list_elem_of_In |].
  apply serialize_doc_view. exists v. by apply matches_field.
Qed.

Lemma mark_attendance_response p w db res db' :
  mark_attendance p w db = (inr res, db') →
  ∃ v, res = serialize_id
               (List.find (matches {[ "_id" := v ]}) (coll "attendance" db')).
Proof.
  intros Hrun. unfold mark_attendance in Hrun.
  destruct (ObjectId _) as [o|]; [| done].
  rewrite bind_run in Hrun. unfold find_one at 1 in Hrun.
  destruct (truthy_doc _); cbn [negb] in Hrun; [| done].
  rewrite bind_run in Hrun. unfold lift in Hrun.
  destruct (normalize_date _) as [e|dn]; [done |].
  rewrite bind_run in Hrun. unfold find_one at 1 in Hrun.
  destruct (truthy_doc _).
  - destruct (_ ≫= _) as [v|]; [| done].
    rewrite bind_run in Hrun. unfold update_one in Hrun.
    rewrite bind_run in Hrun. unfold find_one in Hrun.
    exists v. by injection Hrun as <- <-.
  - rewrite bind_run in Hrun. unfold create_document in Hrun.
    rewrite bind_run in Hrun. unfold insert_one in Hrun.
    case_bool_decide; [done |].
    unfold mret, St_ret in Hrun. rewrite bind_run in Hrun.
    unfold ObjectId_or_raise in Hrun.
    destruct (ObjectId (oid_str _)) as [o'|]; [| done].
    unfold mret, St_ret in Hrun. rewrite bind_run in Hrun.
    unfold find_one in Hrun. exists (VOid o'). by injection Hrun as <- <-.
Qed.

Lemma create_driver_response p w db res db' :
  create_driver p w db = (inr res, db') →
  ∃ v, res = serialize_id
               (List.find (matches {[ "_id" := v ]}) (coll "driver" db')).
Proof.
  intros Hrun. unfold create_driver in Hrun.
  rewrite bind_run in Hrun. unfold create_document in Hrun.
  rewrite bind_run in Hrun. unfold insert_one in Hrun.
  case_bool_decide; [done |].
  unfold mret, St_ret in Hrun. rewrite bind_run in Hrun.
  unfold ObjectId_or_raise in Hrun.
  destruct (ObjectId (oid_str _)) as [o'|]; [| done].
  unfold mret, St_ret in Hrun. rewrite bind_run in Hrun.
  unfold find_one in Hrun. exists (VOid o'). by injection Hrun as <- <-.
Qed.

Lemma list_drivers_run (db : database) :
  list_drivers db = (inr (serialize_doc <$> coll "driver" db), db).
Proof.
  unfold list_drivers. rewrite bind_run. unfold get_documents, find.
  by rewrite filter_matches_empty.
Qed.

(** What [GET /attendance] answers when it answers. *)
Lemma get_attendance_response date driver_id db rs db' :
  get_attendance date driver_id db = (inr rs, db') →
  ∃ q, rs = serialize_doc <$> List.filter (matches q) (coll "attendance" db).
Proof.
  unfold get_attendance.
  destruct (truthy_str date) as [s|];
    [destruct (normalize_date s) as [e|d] eqn:Hd |];
    (destruct (truthy_str driver_id) as [i|];
       [destruct (ObjectId i) as [o|] eqn:Ho |]);
    cbv [mbind St_bind mret St_ret lift raise get_documents find];
    rewrite ?Hd, ?Ho; try done;
    intros [= <- <-]; eexists; reflexivity.
Qed.

(** C7.  In a store whose documents all carry an [_id], every object a
    handler answers with is the public view of a stored record: [_id] is
    removed, [id] holds the text of that identifier, and every other field
    is as stored.  This holds for [serialize_id] itself, for each element of
    the lists of [GET /drivers] and [GET /attendance], and for the record
    answered by [POST /drivers] and [POST /attendance]. *)
Theorem responses_are_public_views (db : database) :
  Forall has_id (coll "driver" db) →
  Forall has_id (coll "attendance" db) →
  (∀ d, has_id d → public_view d (serialize_doc d))
  ∧ (∃ rs, list_drivers db = (inr rs, db)
           ∧ Forall2 public_view (coll "driver" db) rs)
  ∧ (∀ date driver_id rs db',
       get_attendance date driver_id db = (inr rs, db') →
       ∃ stored, stored ⊆ coll "attendance" db ∧ Forall2 public_view stored rs)
  ∧ (∀ p w r db',
       create_driver p w db = (inr (Some r), db') →
       ∃ d, d ∈ coll "driver" db' ∧ public_view d r)
  ∧ (∀ p w r db',
       mark_attendance p w db = (inr (Some r), db') →
       ∃ d, d ∈ coll "attendance" db' ∧ public_view d r).
Proof.
  intros Hdrv Hatt. split; [| split; [| split; [| split]]].
  - apply serialize_doc_view.
  - eexists. split; [apply list_drivers_run |]. by apply serialize_list_view.
  - intros date driver_id rs db' Hrun.
    apply get_attendance_response in Hrun as [q ->].
    exists (List.filter (matches q) (coll "attendance" db)).
    assert (Hsub : ∀ x, x ∈ List.filter (matches q) (coll "attendance" db) →
                        x ∈ coll "attendance" db).
    { intros x Hx. apply list_elem_of_In, filter_In in Hx as [Hx _].
      by apply list_elem_of_In. }
    split; [exact Hsub |].
    apply serialize_list_view, Forall_forall. intros x Hx.
    by apply (proj1 (Forall_forall _ _) Hatt), Hsub.
  - intros p w r db' Hrun.
    apply create_driver_response in Hrun as [v Hv].
    by apply (refetched_view v).
  - intros p w r db' Hrun.
    apply mark_attendance_response in Hrun as [v Hv].
    by apply (refetched_view v).
Qed.

(** The driver list of the scenario's store. *)
Lemma responses_are_public_views_witness :
  ∃ rs, list_drivers db_sick = (inr rs, db_sick)
        ∧ Forall2 public_view (coll "driver" db_sick) rs.
Proof.
  refine (proj1 (proj2 (responses_are_public_views db_sick _ _))).
  - by_computation.
  - by_computation.
Defined.

(** ** [POST /drivers] *)

(** C10.  [POST /drivers], given a 12-byte identifier the collection does
    not hold yet, appends a document with exactly the fields [name],
    [phone], [license_no] of the request and the generated [_id], and
    answers the same fields with [id] in place of [_id]; neither has an
    [is_active] field. *)
Theorem create_driver_fields (p : DriverCreate.t) (w : world) (db : database) :
  let new := generated_id w in
  let stored : doc :=
    {[ "_id" := VOid new;
       "name" := VStr (DriverCreate.name p);
       "phone" := opt_str (DriverCreate.phone p);
       "license_no" := opt_str (DriverCreate.license_no p) ]} in
  let returned : doc :=
    {[ "id" := VStr (oid_str new);
       "name" := VStr (DriverCreate.name p);
       "phone" := opt_str (DriverCreate.phone p);
       "license_no" := opt_str (DriverCreate.license_no p) ]} in
  valid_oid new →
  VOid new ∉ ids (coll "driver" db) →
  create_driver p w db
  = (inr (Some returned), <["driver" := coll "driver" db ++ [stored]]> db)
  ∧ dom stored = {[ "_id"; "name"; "phone"; "license_no" ]}
  ∧ dom returned = {[ "id"; "name"; "phone"; "license_no" ]}
  ∧ stored !! "is_active" = None
  ∧ returned !! "is_active" = None.
Proof.
  intros new stored returned Hvalid Hfresh.
  split; [| split; [| split; [| split]]].
  - unfold create_driver. rewrite bind_run. unfold create_document.
    rewrite bind_run. unfold insert_one. fold new.
    rewrite bool_decide_eq_false_2 by done.
    unfold mret, St_ret. rewrite bind_run. unfold ObjectId_or_raise.
    rewrite ObjectId_oid_str by done.
    unfold mret, St_ret. cbv beta iota.
    rewrite bind_run. unfold find_one. rewrite coll_insert.
    unfold DriverCreate.model_dump. fold stored.
    rewrite (find_app_new _ _ stored); [| done | by subst stored; simplify_map_eq].
    cbn [serialize_id fmap option_fmap option_map].
    rewrite (serialize_doc_has_id stored (VOid new))
      by (by subst stored; simplify_map_eq).
    subst stored returned. rewrite delete_insert_eq, delete_id; [done |].
    by simplify_map_eq.
  - subst stored. rewrite !dom_insert_L, dom_singleton_L. set_solver.
  - subst returned. rewrite !dom_insert_L, dom_singleton_L. set_solver.
  - subst stored. by simplify_map_eq.
  - subst returned. by simplify_map_eq.
Qed.

(** Creating Alice in the empty database. *)
Lemma create_driver_fields_witness :
  create_driver alice w1 ∅
  = (inr (Some {[ "id" := VStr D1; "name" := VStr "Alice";
                  "phone" := VNone; "license_no" := VNone ]}),
     db_alice).
Proof.
  refine (proj1 (create_driver_fields alice w1 ∅ _ _)).
  - unfold valid_oid. simpl. lia.
  - by_computation.
Defined.

(** ** [GET /test] *)

(** C8.  [GET /test] returns a response whatever the store collaborator
    does: with no database, with [db.name] raising, with
    [list_collection_names()] raising, or with both working.  Each failure
    ends up as a status text in the [database] field, and the [collections]
    field never lists more than 10 names. *)
Theorem test_database_never_fails
    (db : option db_handle) (DATABASE_URL : option string) :
  ∃ r, test_database db DATABASE_URL = inr r
       ∧ (length (Diagnostics.collections r) ≤ 10)%nat
       ∧ Diagnostics.backend r = "✅ Running"
       ∧ match db with
         | None =>
             Diagnostics.database r = "❌ Not Available"
             ∧ Diagnostics.collections r = []
         | Some h =>
             match db_name h, list_collection_names h with
             | inl e, _ =>
                 Diagnostics.database r = ("❌ Error: " ++ first50 e)%string
                 ∧ Diagnostics.collections r = []
             | inr _, inl e =>
                 Diagnostics.database r
                 = ("⚠️ Connected but Error: " ++ first50 e)%string
                 ∧ Diagnostics.collections r = []
             | inr _, inr names =>
                 Diagnostics.database r = "✅ Connected & Working"
                 ∧ Diagnostics.collections r = take 10 names
             end
         end.
Proof.
  unfold test_database.
  destruct db as [[[e|name] [e'|names]]|];
    cbv [try_except mbind St_bind mret St_ret lift assign db_name
         list_collection_names];
    eexists; (split; [reflexivity |]); cbn;
    repeat split; try lia.
  rewrite length_take. lia.
Qed.

(** ** Dates and malformed input *)

Section datetime_facts.
Import Datetime.

Lemma digit_cases (n : Z) :
  n mod 10 = 0 ∨ n mod 10 = 1 ∨ n mod 10 = 2 ∨ n mod 10 = 3 ∨ n mod 10 = 4
  ∨ n mod 10 = 5 ∨ n mod 10 = 6 ∨ n mod 10 = 7 ∨ n mod 10 = 8 ∨ n mod 10 = 9.
Proof. pose proof (Z.mod_pos_bound n 10). lia. Qed.

Lemma is_digit_digit_char (n : Z) : is_digit (digit_char n) = true.
Proof.
  unfold digit_char.
  destruct (digit_cases n) as [-> | [-> | [-> | [-> | [-> | [-> | [-> | [-> | [-> | ->]]]]]]]]];
    reflexivity.
Qed.

Lemma digit_value_digit_char (n : Z) : digit_value (digit_char n) = n mod 10.
Proof.
  unfold digit_char.
  destruct (digit_cases n) as [H | [H | [H | [H | [H | [H | [H | [H | [H | H]]]]]]]]];
    rewrite H; reflexivity.
Qed.

Lemma in_range_bounds lo hi c :
  in_range lo hi c = true →
  (N_of_ascii lo ≤ N_of_ascii c ≤ N_of_ascii hi)%N.
Proof.
  unfold in_range. rewrite andb_true_iff, !N.leb_le. tauto.
Qed.

Lemma orelse_Some {A} (x y : option A) (a : A) :
  orelse x y = Some a → x = Some a ∨ y = Some a.
Proof. destruct x; simpl; auto. Qed.

Lemma two_Some {A} lo1 hi1 lo2 hi2 f l (k : Z → list ascii → option A) x :
  two lo1 hi1 lo2 hi2 f l k = Some x →
  ∃ a b r, l = a :: b :: r ∧ in_range lo1 hi1 a = true
           ∧ in_range lo2 hi2 b = true ∧ k (f a b) r = Some x.
Proof.
  unfold two. destruct l as [|a [|b r]]; try done.
  destruct (in_range lo1 hi1 a) eqn:Ha; [| done].
  destruct (in_range lo2 hi2 b) eqn:Hb; [| done].
  simpl. eauto 10.
Qed.

Lemma one_Some {A} lo hi l (k : Z → list ascii → option A) x :
  one lo hi l k = Some x →
  ∃ a r, l = a :: r ∧ in_range lo hi a = true ∧ k (digit_value a) r = Some x.
Proof.
  unfold one. destruct l as [|a r]; try done.
  destruct (in_range lo hi a) eqn:Ha; [| done]. eauto 10.
Qed.

Lemma in_range_digit lo hi c :
  is_digit lo = true → is_digit hi = true →
  in_range lo hi c = true → is_digit c = true.
Proof.
  unfold is_digit. intros Hlo Hhi Hc.
  apply in_range_bounds in Hlo, Hhi, Hc.
  unfold in_range. apply andb_true_iff. rewrite !N.leb_le. lia.
Qed.

Lemma two_short {A} lo1 hi1 lo2 hi2 f l (k : Z → list ascii → option A) x :
  (is_digit lo1 = true ∧ is_digit hi1 = true) ∨ (lo1 = " "%char ∧ hi1 = " "%char) →
  is_digit lo2 = true → is_digit hi2 = true →
  two lo1 hi1 lo2 hi2 f l k = Some x →
  ∃ a b r, l = [a; b] ++ r ∧ short_field [a; b]
           ∧ in_range lo1 hi1 a = true ∧ in_range lo2 hi2 b = true
           ∧ k (f a b) r = Some x.
Proof.
  intros H1 Hlo2 Hhi2 H.
  apply two_Some in H as (a & b & r & -> & Ha & Hb & Hk).
  exists a, b, r. split; [done |]. split; [| done].
  split; [by right |].
  constructor; [| constructor; [| constructor]].
  - destruct H1 as [[Hlo1 Hhi1] | [-> ->]].
    + left. by apply (in_range_digit lo1 hi1).
    + right. apply in_range_bounds in Ha.
      assert (N_of_ascii a = N_of_ascii " ") as Heq by lia.
      apply (f_equal ascii_of_N) in Heq. by rewrite !ascii_N_embedding in Heq.
  - left. by apply (in_range_digit lo2 hi2).
Qed.

Lemma one_short {A} lo hi l (k : Z → list ascii → option A) x :
  is_digit lo = true → is_digit hi = true →
  one lo hi l k = Some x →
  ∃ a r, l = [a] ++ r ∧ short_field [a] ∧ in_range lo hi a = true
         ∧ k (digit_value a) r = Some x.
Proof.
  intros Hlo Hhi H. apply one_Some in H as (a & r & -> & Ha & Hk).
  exists a, r. split; [done |]. split; [| done].
  split; [by left |].
  constructor; [| constructor]. left. by apply (in_range_digit lo hi).
Qed.

Lemma group_m_Some {A} l (k : Z → list ascii → option A) x :
  group_m l k = Some x →
  ∃ m M r, l = M ++ r ∧ short_field M ∧ 1 ≤ m ≤ 12 ∧ k m r = Some x.
Proof.
  unfold group_m. intros H.
  apply orelse_Some in H as [H | H]; [| apply orelse_Some in H as [H | H]].
  - apply two_short in H as (a & b & r & -> & Hs & Ha & Hb & Hk); [| auto..].
    apply in_range_bounds in Ha, Hb.
    exists (two_digits a b), [a; b], r.
    split; [done |]. split; [exact Hs |]. split; [| exact Hk].
    unfold two_digits, digit_value; simpl in *; lia.
  - apply two_short in H as (a & b & r & -> & Hs & Ha & Hb & Hk); [| auto..].
    apply in_range_bounds in Ha, Hb.
    exists (two_digits a b), [a; b], r.
    split; [done |]. split; [exact Hs |]. split; [| exact Hk].
    unfold two_digits, digit_value; simpl in *; lia.
  - apply one_short in H as (a & r & -> & Hs & Ha & Hk); [| auto..].
    apply in_range_bounds in Ha.
    exists (digit_value a), [a], r.
    split; [done |]. split; [exact Hs |]. split; [| exact Hk].
    unfold digit_value; simpl in *; lia.
Qed.

Lemma group_d_Some {A} l (k : Z → list ascii → option A) x :
  group_d l k = Some x →
  ∃ d D r, l = D ++ r ∧ short_field D ∧ 1 ≤ d ≤ 31 ∧ k d r = Some x.
Proof.
  unfold group_d. intros H.
  repeat (apply orelse_Some in H as [H | H]).
  1-3, 5: apply two_short in H as (a & b & r & -> & Hs & Ha & Hb & Hk);
    [| auto..];
    apply in_range_bounds in Ha, Hb;
    eexists _, [a; b], r;
    (split; [done |]); (split; [exact Hs |]); (split; [| exact Hk]);
    unfold two_digits, digit_value; simpl in *; lia.
  apply one_short in H as (a & r & -> & Hs & Ha & Hk); [| auto..].
  apply in_range_bounds in Ha.
  exists (digit_value a), [a], r.
  split; [done |]. split; [exact Hs |]. split; [| exact Hk].
  unfold digit_value; simpl in *; lia.
Qed.

Lemma group_Y_Some {A} l (k : Z → list ascii → option A) x :
  group_Y l k = Some x →
  ∃ y Y r, l = Y ++ r ∧ length Y = 4%nat ∧ Forall (λ c, is_digit c = true) Y
           ∧ 0 ≤ y ≤ 9999 ∧ k y r = Some x.
Proof.
  unfold group_Y. destruct l as [|a [|b [|c [|d r]]]]; try done.
  destruct (is_digit a) eqn:Ha; [| done].
  destruct (is_digit b) eqn:Hb; [| done].
  destruct (is_digit c) eqn:Hc; [| done].
  destruct (is_digit d) eqn:Hd; [| done].
  simpl. intros Hk. eexists _, [a; b; c; d], r.
  split; [done |]. split; [done |]. split; [by repeat constructor |].
  split; [| exact Hk].
  apply in_range_bounds in Ha, Hb, Hc, Hd.
  unfold digit_value. simpl in *. lia.
Qed.

Lemma literal_Some {A} ch l (k : list ascii → option A) x :
  literal ch l k = Some x → ∃ r, l = ch :: r ∧ k r = Some x.
Proof.
  unfold literal. destruct l as [|c r]; [done |].
  destruct (Ascii.eqb c ch) eqn:Hc; [| done].
  apply Ascii.eqb_eq in Hc as ->. eauto.
Qed.

(** What [strptime] accepts has that shape and is a calendar date. *)
Lemma strptime_Some s d :
  strptime s = Some d →
  date_shape s
  ∧ 1 ≤ year d ≤ 9999 ∧ 1 ≤ month d ≤ 12
  ∧ 1 ≤ day d ≤ days_in_month (year d) (month d).
Proof.
  unfold strptime. destruct (regex_ymd _) as [[[[y m] dd] rest]|] eqn:Hre; [| done].
  destruct rest; [| done].
  destruct (1 <=? y) eqn:Hy; [| done].
  destruct (dd <=? days_in_month y m) eqn:Hd; [| done].
  intros [= <-]. simpl. apply Z.leb_le in Hy, Hd.
  unfold regex_ymd in Hre.
  apply group_Y_Some in Hre as (y' & Y & r1 & Hl & HY4 & HY & Hy' & Hre).
  apply literal_Some in Hre as (r2 & -> & Hre).
  apply group_m_Some in Hre as (m' & M & r3 & -> & HM & Hm' & Hre).
  apply literal_Some in Hre as (r4 & -> & Hre).
  apply group_d_Some in Hre as (d' & D & r5 & -> & HD & Hd' & Hre).
  simplify_eq. split; [| lia].
  exists Y, M, D. rewrite Hl, app_nil_r. done.
Qed.

Lemma year_digits (y : Z) :
  0 ≤ y ≤ 9999 →
  1000 * ((y / 1000) mod 10) + 100 * ((y / 100) mod 10)
  + 10 * ((y / 10) mod 10) + y mod 10 = y.
Proof. intros Hy. Z.div_mod_to_equations. lia. Qed.

(** Month and day, as [strftime] writes them, read back. *)
Lemma month_day_read_back (y m d : Z) :
  1 ≤ m ≤ 12 → 1 ≤ d ≤ 31 →
  group_m [digit_char (m / 10); digit_char m; "-"%char;
           digit_char (d / 10); digit_char d]
    (λ m l, literal "-" l (λ l, group_d l (λ d l, Some (y, m, d, l))))
  = Some (y, m, d, []).
Proof.
  intros Hm Hd.
  assert (Hmc : m = 1 ∨ m = 2 ∨ m = 3 ∨ m = 4 ∨ m = 5 ∨ m = 6 ∨ m = 7 ∨ m = 8
                ∨ m = 9 ∨ m = 10 ∨ m = 11 ∨ m = 12) by lia.
  assert (Hdc : d = 1 ∨ d = 2 ∨ d = 3 ∨ d = 4 ∨ d = 5 ∨ d = 6 ∨ d = 7 ∨ d = 8
                ∨ d = 9 ∨ d = 10 ∨ d = 11 ∨ d = 12 ∨ d = 13 ∨ d = 14 ∨ d = 15
                ∨ d = 16 ∨ d = 17 ∨ d = 18 ∨ d = 19 ∨ d = 20 ∨ d = 21 ∨ d = 22
                ∨ d = 23 ∨ d = 24 ∨ d = 25 ∨ d = 26 ∨ d = 27 ∨ d = 28 ∨ d = 29
                ∨ d = 30 ∨ d = 31) by lia.
  clear Hm Hd.
  repeat (destruct Hmc as [-> | Hmc]);
    try subst m;
    repeat (destruct Hdc as [-> | Hdc]);
    try subst d; reflexivity.
Qed.

(** A calendar date, written by [strftime], is read back by [strptime]. *)
Lemma strptime_strftime (d : date) :
  1 ≤ year d ≤ 9999 → 1 ≤ month d ≤ 12 →
  1 ≤ day d ≤ days_in_month (year d) (month d) →
  strptime (strftime d) = Some d.
Proof.
  destruct d as [y m dd]. simpl. intros Hy Hm Hd.
  assert (Hd31 : 1 ≤ dd ≤ 31).
  { unfold days_in_month in Hd. repeat case_match; lia. }
  unfold strptime, strftime. rewrite list_ascii_of_string_of_list_ascii.
  unfold regex_ymd, group_Y. cbn [year month day].
  rewrite !is_digit_digit_char, !digit_value_digit_char.
  rewrite year_digits by lia. cbn [andb literal].
  change (Ascii.eqb "-" "-") with true. cbv iota.
  rewrite month_day_read_back by done.
  rewrite (proj2 (Z.leb_le 1 y)) by lia.
  rewrite (proj2 (Z.leb_le dd _)) by lia. done.
Qed.

Lemma ymd_form_strftime (d : date) : ymd_form (strftime d) = true.
Proof.
  unfold ymd_form, strftime. rewrite list_ascii_of_string_of_list_ascii.
  cbn [forallb]. by rewrite !is_digit_digit_char.
Qed.

End datetime_facts.

(** Whatever [normalize_date] accepts comes out in the form [YYYY-MM-DD],
    and it accepts its own output unchanged. *)
Lemma normalize_date_canonical (s s' : string) :
  normalize_date s = inr s' →
  ymd_form s' = true ∧ normalize_date s' = inr s'.
Proof.
  unfold normalize_date.
  destruct (Datetime.strptime s) as [d|] eqn:Hd; [| done].
  intros [= <-]. split; [apply ymd_form_strftime |].
  apply strptime_Some in Hd as (_ & Hy & Hm & Hdd).
  by rewrite strptime_strftime.
Qed.

Lemma normalize_date_status (s : string) (e : exn) :
  normalize_date s = inl e → status_of e = 400.
Proof.
  unfold normalize_date. destruct (Datetime.strptime s); [done |].
  by intros [= <-].
Qed.


Lemma not_date_shape_rejected (s : string) :
  ¬ date_shape s →
  normalize_date s = inl (HTTPException 400 "Invalid date format. Use YYYY-MM-DD").
Proof.
  intros Hshape. unfold normalize_date.
  destruct (Datetime.strptime s) as [d|] eqn:Hd; [| done].
  by apply strptime_Some in Hd as [? _].
Qed.



(** * Further properties of the handlers *)

(** ** [POST /attendance]: what every call keeps *)

Lemma find_split {A} (f : A → bool) (l : list A) (r : A) :
  List.find f l = Some r →
  ∃ pre post, l = pre ++ r :: post
              ∧ Forall (λ x, f x = false) pre ∧ f r = true.
Proof.
  induction l as [|x l IH]; [done |]. simpl.
  destruct (f x) eqn:Hx.
  - intros [= ->]. exists [], l. by repeat split.
  - intros Hf. destruct (IH Hf) as (pre & post & -> & Hpre & Hr).
    exists (x :: pre), post. repeat split; [| done]. by constructor.
Qed.

Ltac failed_early H :=
  left; injection H as <- <-; split; [reflexivity | intros []].

(** Every outcome of a mark: the database is as it was, or the first
    record of the pair was rewritten, or a record was appended. *)
Lemma mark_attendance_cases p w db res db' :
  mark_attendance p w db = (res, db') →
  let i := AttendanceCreate.driver_id p in
  let c := coll "attendance" db in
  (db' = db ∧ ¬ successful res)
  ∨ ∃ dn,
      normalize_date (AttendanceCreate.date p) = inr dn
      ∧ ((∃ r v,
            List.find (matches {[ "driver_id" := VStr i; "date" := VStr dn ]}) c
            = Some r
            ∧ r !! "_id" = Some v
            ∧ db' = alter (update_first {[ "_id" := v ]}
                             (<["updated_at" := VTime (utcnow w)]> (data_of p dn)))
                          "attendance" db)
         ∨ (List.find (matches {[ "driver_id" := VStr i; "date" := VStr dn ]}) c
            = None
            ∧ (VOid (generated_id w) ∉ ids c)
            ∧ db' = <["attendance" := c ++ [new_record p dn w]]> db)).
Proof.
  intros Hrun i c. unfold mark_attendance in Hrun. fold i in Hrun.
  destruct (ObjectId i) as [o|] eqn:Hid;
    [| failed_early Hrun].
  rewrite bind_run in Hrun. unfold find_one at 1 in Hrun.
  destruct (truthy_doc _) eqn:Hdrv; cbn [negb] in Hrun;
    [| failed_early Hrun].
  rewrite bind_run in Hrun. unfold lift in Hrun.
  destruct (normalize_date _) as [e|dn] eqn:Hdate;
    [failed_early Hrun |].
  rewrite bind_run in Hrun. unfold find_one at 1 in Hrun. fold c in Hrun.
  destruct (List.find _ c) as [r|] eqn:Hfind.
  - cbn [truthy_doc] in Hrun.
    rewrite bool_decide_eq_false_2 in Hrun.
    2:{ apply find_some in Hfind as [_ Hm]. eapply matches_nonempty; [| exact Hm].
        intros H. apply (f_equal (lookup "driver_id")) in H.
        by rewrite lookup_insert_eq, lookup_empty in H. }
    cbn [negb mbind option_bind] in Hrun.
    destruct (r !! "_id") as [v|] eqn:Hv;
      [| failed_early Hrun].
    right. exists dn. split; [done |]. left.
    exists r, v. split; [done |]. split; [done |].
    rewrite bind_run in Hrun. unfold update_one in Hrun.
    rewrite bind_run in Hrun. unfold find_one in Hrun.
    injection Hrun as _ <-. reflexivity.
  - cbn [truthy_doc] in Hrun.
    rewrite bind_run in Hrun. unfold create_document in Hrun.
    rewrite bind_run in Hrun. unfold insert_one in Hrun. fold c in Hrun.
    case_bool_decide as Hfresh; [failed_early Hrun |].
    right. exists dn. split; [done |]. right. split; [done |]. split; [done |].
    unfold mret, St_ret in Hrun. rewrite bind_run in Hrun.
    unfold ObjectId_or_raise in Hrun.
    destruct (ObjectId (oid_str _)); [| by injection Hrun as _ <-].
    unfold mret, St_ret in Hrun. rewrite bind_run in Hrun.
    unfold find_one in Hrun. injection Hrun as _ <-. reflexivity.
Qed.

(** The same on a well-formed store, in terms of the attendance
    collection. *)
Lemma mark_attendance_step p w db res db' :
  wf_collection (coll "attendance" db) →
  mark_attendance p w db = (res, db') →
  let i := AttendanceCreate.driver_id p in
  let c := coll "attendance" db in
  (db' = db ∧ ¬ successful res)
  ∨ ∃ dn, normalize_date (AttendanceCreate.date p) = inr dn
    ∧ ((∃ pre r post,
          c = pre ++ r :: post
          ∧ Forall (λ x, ¬ is_record_of i dn x) pre
          ∧ is_record_of i dn r
          ∧ coll "attendance" db' = pre ++ remarked p w r :: post)
       ∨ (records_of i dn c = []
          ∧ (VOid (generated_id w) ∉ ids c)
          ∧ coll "attendance" db' = c ++ [new_record p dn w])).
Proof.
  intros Hwf Hrun i c.
  apply mark_attendance_cases in Hrun as [Hsame | (dn & Hdate & Hcase)];
    [by left | right].
  exists dn. split; [done |]. fold i c in Hcase.
  destruct Hcase as [(r & v & Hfind & Hv & ->) | (Hfind & Hfresh & ->)].
  - left. apply find_split in Hfind as (pre & post & Hc & Hpre & Hr).
    exists pre, r, post. split; [done |].
    apply matches_pair in Hr. split.
    { eapply Forall_impl; [exact Hpre |]. intros x. by rewrite matches_pair_false. }
    split; [done |].
    rewrite coll_alter_update. fold c. rewrite Hc, update_first_app.
    + unfold data_of. by rewrite set_over_record.
    + eapply wf_no_earlier_id; [| exact Hv]. by rewrite <- Hc.
    + by apply matches_field.
  - right. split.
    { apply records_of_nil_Forall. apply find_none_Forall in Hfind.
      eapply Forall_impl; [exact Hfind |]. intros x. by rewrite matches_pair_false. }
    split; [done |]. by rewrite coll_insert.
Qed.

Lemma remarked_lookup p w r k :
  k ≠ "status" → k ≠ "notes" → k ≠ "updated_at" →
  remarked p w r !! k = r !! k.
Proof. intros. unfold remarked. by rewrite !lookup_insert_ne. Qed.

Lemma remarked_record p w r i dn :
  is_record_of i dn (remarked p w r) ↔ is_record_of i dn r.
Proof. unfold is_record_of. by rewrite !remarked_lookup. Qed.

Lemma ids_replace pre r r' post :
  r' !! "_id" = r !! "_id" →
  ids (pre ++ r' :: post) = ids (pre ++ r :: post).
Proof. intros H. unfold ids. rewrite !omap_app. simpl. by rewrite H. Qed.

Lemma records_of_app i dn c1 c2 :
  records_of i dn (c1 ++ c2) = records_of i dn c1 ++ records_of i dn c2.
Proof. apply filter_app. Qed.

Lemma records_of_replace i dn pre r r' post :
  (is_record_of i dn r' ↔ is_record_of i dn r) →
  length (records_of i dn (pre ++ r' :: post))
  = length (records_of i dn (pre ++ r :: post)).
Proof.
  intros H. rewrite !records_of_app, !length_app. f_equal.
  unfold records_of. rewrite !filter_cons.
  destruct (decide (is_record_of i dn r')), (decide (is_record_of i dn r));
    simpl; tauto || done.
Qed.

Lemma new_record_of p dn w i' dn' :
  is_record_of i' dn' (new_record p dn w)
  ↔ i' = AttendanceCreate.driver_id p ∧ dn' = dn.
Proof.
  unfold is_record_of, new_record, data_of.
  rewrite lookup_insert_ne, lookup_insert_eq by done.
  rewrite !lookup_insert_ne, lookup_insert_eq by done.
  split; [intros [[= ->] [= ->]] | intros [-> ->]]; done.
Qed.

Lemma mark_attendance_invariants p w db :
  wf_collection (coll "attendance" db) →
  unique_pairs (coll "attendance" db) →
  wf_collection (coll "attendance" (mark_attendance p w db).2)
  ∧ unique_pairs (coll "attendance" (mark_attendance p w db).2).
Proof.
  intros Hwf Huniq.
  destruct (mark_attendance p w db) as [res db'] eqn:Hrun. cbn [snd].
  destruct (mark_attendance_step p w db res db' Hwf Hrun)
    as [[-> _] | (dn & _ & [(pre & r & post & Hc & _ & Hr & ->)
                           | (Hnone & Hfresh & ->)])]; [done | |].
  - rewrite Hc in Hwf, Huniq. destruct Hwf as [Hhas Hnd]. split; [split |].
    + apply Forall_app in Hhas as [Hpre Hpost].
      apply Forall_app. split; [done |].
      inversion Hpost as [|? ? Hrid Hpost']; subst. constructor; [| done].
      unfold has_id. by rewrite remarked_lookup.
    + by rewrite (ids_replace pre r) by by apply remarked_lookup.
    + intros i' dn'. rewrite (records_of_replace i' dn' pre r); [apply Huniq |].
      apply remarked_record.
  - destruct Hwf as [Hhas Hnd]. split; [split |].
    + apply Forall_app. split; [done |]. constructor; [| done].
      unfold has_id, new_record. by rewrite lookup_insert_eq.
    + rewrite ids_app, (ids_cons _ (VOid (generated_id w)))
        by apply lookup_insert_eq.
      apply NoDup_app. split; [done |]. split; [| apply NoDup_singleton].
      intros x Hx Hx'. apply list_elem_of_singleton in Hx' as ->. done.
    + intros i' dn'. rewrite records_of_app, length_app.
      unfold records_of at 2. rewrite filter_cons, filter_nil.
      destruct (decide (is_record_of i' dn' _)) as [Hrec | Hrec]; simpl.
      * apply new_record_of in Hrec as [-> ->]. rewrite Hnone. simpl. lia.
      * specialize (Huniq i' dn'). lia.
Qed.

(** X1.  On a store where every attendance document has its own [_id]
    and no pair has more than one record, any sequence of
    [POST /attendance] calls made one after the other, whatever their
    payloads and whatever each one answers, leaves a store of the same
    kind: still at most one Attendance Record for every pair. *)
Theorem marks_keep_one_record_per_pair
    (calls : list (AttendanceCreate.t * world)) (db : database) :
  wf_collection (coll "attendance" db) →
  unique_pairs (coll "attendance" db) →
  wf_collection (coll "attendance" (mark_all calls db).2)
  ∧ unique_pairs (coll "attendance" (mark_all calls db).2).
Proof.
  revert db. induction calls as [|[p w] rest IH]; intros db Hwf Huniq; [done |].
  cbn [mark_all].
  destruct (mark_attendance_invariants p w db Hwf Huniq) as [Hwf' Huniq'].
  destruct (mark_attendance p w db) as [res db'].
  specialize (IH db' Hwf' Huniq').
  by destruct (mark_all rest db') as [rs db''].
Qed.

(** The two marks of the scenario, and a mark that is refused, in a row. *)
Lemma marks_keep_one_record_per_pair_witness :
  wf_collection
    (coll "attendance"
       (mark_all [(first_mark, w2); (unknown_driver_mark, w2); (second_mark, w3)]
                 db_alice).2)
  ∧ unique_pairs
      (coll "attendance"
         (mark_all [(first_mark, w2); (unknown_driver_mark, w2); (second_mark, w3)]
                   db_alice).2).
Proof.
  apply (marks_keep_one_record_per_pair
           [(first_mark, w2); (unknown_driver_mark, w2); (second_mark, w3)]
           db_alice).
  - by_computation.
  - intros i dn. vm_compute. lia.
Defined.

Lemma length_update_first q upd c : length (update_first q upd c) = length c.
Proof.
  induction c as [|d c IH]; [done |]. simpl.
  destruct (matches q d); simpl; [done | by rewrite IH].
Qed.

(** X2.  Whatever [POST /attendance] answers, it leaves every collection
    other than [attendance] as it was, drivers included, and the
    [attendance] collection never loses a document and gains at most
    one. *)
Theorem mark_attendance_frame
    (p : AttendanceCreate.t) (w : world) (db : database) :
  let db' := (mark_attendance p w db).2 in
  (∀ name, name ≠ "attendance" → db' !! name = db !! name)
  ∧ (length (coll "attendance" db) ≤ length (coll "attendance" db')
     ≤ S (length (coll "attendance" db)))%nat.
Proof.
  destruct (mark_attendance p w db) as [res db'] eqn:Hrun. cbn [snd].
  apply mark_attendance_cases in Hrun
    as [[-> _] | (dn & _ & [(r & v & _ & _ & ->) | (_ & _ & ->)])].
  - split; [done | lia].
  - split.
    + intros name Hne. by rewrite lookup_alter_ne.
    + rewrite coll_alter_update, length_update_first. lia.
  - split.
    + intros name Hne. by rewrite lookup_insert_ne.
    + rewrite coll_insert, length_app. simpl. lia.
Qed.

Lemma records_of_other_replace i dn pre r r' post :
  ¬ is_record_of i dn r → ¬ is_record_of i dn r' →
  records_of i dn (pre ++ r' :: post) = records_of i dn (pre ++ r :: post).
Proof.
  intros Hr Hr'. rewrite !records_of_app. f_equal.
  unfold records_of. by rewrite !filter_cons_False.
Qed.

(** X3.  On a store whose attendance documents each have their own [_id],
    [POST /attendance] leaves the records of every other pair as they
    were: a pair with another driver text, or with a date other than the
    normalized date of the request. *)
Theorem mark_attendance_other_pairs
    (p : AttendanceCreate.t) (w : world) (db : database) (i dn : string) :
  wf_collection (coll "attendance" db) →
  (i ≠ AttendanceCreate.driver_id p
   ∨ normalize_date (AttendanceCreate.date p) ≠ inr dn) →
  records_of i dn (coll "attendance" (mark_attendance p w db).2)
  = records_of i dn (coll "attendance" db).
Proof.
  intros Hwf Hother.
  destruct (mark_attendance p w db) as [res db'] eqn:Hrun. cbn [snd].
  assert (Hpair : ∀ dn0, normalize_date (AttendanceCreate.date p) = inr dn0 →
            ¬ (i = AttendanceCreate.driver_id p ∧ dn = dn0)).
  { intros dn0 Hdn [-> ->]. destruct Hother; done. }
  destruct (mark_attendance_step p w db res db' Hwf Hrun)
    as [[-> _] | (dn0 & Hdn & [(pre & r & post & Hc & _ & [Hri Hrd] & ->)
                             | (_ & _ & ->)])]; [done | |].
  - rewrite Hc. apply records_of_other_replace.
    + intros [Hi' Hd']. apply (Hpair dn0 Hdn). split; congruence.
    + rewrite remarked_record. intros [Hi' Hd']. apply (Hpair dn0 Hdn).
      split; congruence.
  - rewrite records_of_app. unfold records_of at 2.
    rewrite filter_cons_False, filter_nil, app_nil_r; [done |].
    rewrite new_record_of. apply (Hpair dn0 Hdn).
Qed.

(** Marking Alice late for 2024-01-05 leaves her record of 2024-01-06. *)
Lemma mark_attendance_other_pairs_witness :
  records_of D1 "2024-01-06" (coll "attendance" (mark_attendance second_mark w3 db_sick).2)
  = [R_sick].
Proof.
  rewrite (mark_attendance_other_pairs second_mark w3 db_sick D1 "2024-01-06").
  - reflexivity.
  - by_computation.
  - right. vm_compute. discriminate.
Defined.

(** X4.  On a store whose attendance documents each have their own [_id],
    and with a generated identifier of 12 bytes that the collection does
    not hold, [POST /attendance] answers 200, 400 or 404 and nothing else:
    no exception leaves the handler. *)
Theorem mark_attendance_statuses
    (p : AttendanceCreate.t) (w : world) (db : database) :
  wf_collection (coll "attendance" db) →
  valid_oid (generated_id w) →
  VOid (generated_id w) ∉ ids (coll "attendance" db) →
  let status := response_status (mark_attendance p w db).1 in
  status = 200 ∨ status = 400 ∨ status = 404.
Proof.
  intros [Hhas _] Hvalid Hfresh. cbv zeta.
  destruct (mark_attendance p w db) as [res db'] eqn:Hrun. cbn [fst].
  unfold mark_attendance in Hrun.
  destruct (ObjectId _) as [o|]; [| injection Hrun as <- _; auto].
  rewrite bind_run in Hrun. unfold find_one at 1 in Hrun.
  destruct (truthy_doc _); cbn [negb] in Hrun;
    [| injection Hrun as <- _; auto].
  rewrite bind_run in Hrun. unfold lift in Hrun.
  destruct (normalize_date _) as [e|dn] eqn:Hdate.
  { apply normalize_date_status in Hdate. injection Hrun as <- _. auto. }
  rewrite bind_run in Hrun. unfold find_one at 1 in Hrun.
  destruct (List.find _ _) as [r|] eqn:Hfind.
  - cbn [truthy_doc] in Hrun.
    apply find_some in Hfind as [Hin Hm].
    pose proof (proj1 (Forall_forall _ _) Hhas r
                  (proj2 (list_elem_of_In _ _) Hin)) as [v Hv].
    rewrite bool_decide_eq_false_2 in Hrun
      by (intros ->; by rewrite lookup_empty in Hv).
    cbn [negb mbind option_bind] in Hrun. rewrite Hv in Hrun.
    rewrite bind_run in Hrun. unfold update_one in Hrun.
    rewrite bind_run in Hrun. unfold find_one in Hrun.
    injection Hrun as <- _. auto.
  - cbn [truthy_doc] in Hrun.
    rewrite bind_run in Hrun. unfold create_document in Hrun.
    rewrite bind_run in Hrun. unfold insert_one in Hrun.
    rewrite bool_decide_eq_false_2 in Hrun by done.
    unfold mret, St_ret in Hrun. rewrite bind_run in Hrun.
    unfold ObjectId_or_raise in Hrun.
    rewrite ObjectId_oid_str in Hrun by done.
    unfold mret, St_ret in Hrun. rewrite bind_run in Hrun.
    unfold find_one in Hrun. injection Hrun as <- _. auto.
Qed.

(** A mark for an unknown driver on the scenario's store. *)
Lemma mark_attendance_statuses_witness :
  response_status (mark_attendance unknown_driver_mark w3 db_sick).1 = 200
  ∨ response_status (mark_attendance unknown_driver_mark w3 db_sick).1 = 400
  ∨ response_status (mark_attendance unknown_driver_mark w3 db_sick).1 = 404.
Proof.
  apply (mark_attendance_statuses unknown_driver_mark w3 db_sick).
  - by_computation.
  - unfold valid_oid. simpl. lia.
  - by_computation.
Defined.

(** ** Handlers that only read *)

(** X5.  [GET /drivers], [GET /attendance] and [GET /attendance/summary]
    leave the database exactly as it was, whether they answer or raise. *)
Theorem read_handlers_never_write (db : database) :
  (list_drivers db).2 = db
  ∧ (∀ date driver_id, (get_attendance date driver_id db).2 = db)
  ∧ (∀ driver_id, (attendance_summary driver_id db).2 = db).
Proof.
  split; [| split].
  - by rewrite list_drivers_run.
  - intros date driver_id. unfold get_attendance.
    destruct (truthy_str date) as [s|];
      [destruct (normalize_date s) as [e|d] eqn:Hd |];
      (destruct (truthy_str driver_id) as [i|];
         [destruct (ObjectId i) as [o|] eqn:Ho |]);
      cbv [mbind St_bind mret St_ret lift raise get_documents find];
      rewrite ?Hd, ?Ho; reflexivity.
  - intros i. unfold attendance_summary. by destruct (ObjectId i).
Qed.

(** ** [POST /drivers] and what follows it *)

Lemma create_driver_run p w db :
  valid_oid (generated_id w) →
  VOid (generated_id w) ∉ ids (coll "driver" db) →
  create_driver p w db
  = (inr (Some (serialize_doc (new_driver p w))),
     <["driver" := coll "driver" db ++ [new_driver p w]]> db).
Proof.
  intros Hvalid Hfresh.
  unfold create_driver. rewrite bind_run. unfold create_document.
  rewrite bind_run. unfold insert_one.
  rewrite bool_decide_eq_false_2 by done.
  unfold mret, St_ret. rewrite bind_run. unfold ObjectId_or_raise.
  rewrite ObjectId_oid_str by done.
  unfold mret, St_ret. cbv beta iota.
  rewrite bind_run. unfold find_one. rewrite coll_insert.
  fold (new_driver p w).
  rewrite (find_app_new _ _ (new_driver p w));
    [done | done | apply lookup_insert_eq].
Qed.

Lemma serialize_new_driver p w :
  serialize_doc (new_driver p w) !! "id"
  = Some (VStr (oid_str (generated_id w))).
Proof.
  rewrite (serialize_doc_has_id _ (VOid (generated_id w)))
    by apply lookup_insert_eq.
  apply lookup_insert_eq.
Qed.

(** X6.  After [POST /drivers] with a 12-byte identifier the collection
    does not hold, [GET /drivers] answers what it answered before followed
    by the object [POST /drivers] returned, whose [id] is the text of the
    generated identifier; no other collection is changed. *)
Theorem create_driver_then_list (p : DriverCreate.t) (w : world) (db : database) :
  valid_oid (generated_id w) →
  VOid (generated_id w) ∉ ids (coll "driver" db) →
  ∃ r db' before,
    create_driver p w db = (inr (Some r), db')
    ∧ list_drivers db = (inr before, db)
    ∧ list_drivers db' = (inr (before ++ [r]), db')
    ∧ r !! "id" = Some (VStr (oid_str (generated_id w)))
    ∧ ∀ name, name ≠ "driver" → db' !! name = db !! name.
Proof.
  intros Hvalid Hfresh. eexists _, _, _.
  split; [by apply create_driver_run |].
  split; [apply list_drivers_run |].
  split; [| split].
  - rewrite list_drivers_run, coll_insert, fmap_app. reflexivity.
  - apply serialize_new_driver.
  - intros name Hne. by rewrite lookup_insert_ne.
Qed.

(** A second Alice beside the first. *)
Lemma create_driver_then_list_witness :
  ∃ r db',
    create_driver alice w3 db_alice = (inr (Some r), db')
    ∧ list_drivers db'
      = (inr [serialize_doc alice_doc; r], db')
    ∧ r !! "id" = Some (VStr "000000000000000000000003").
Proof.
  destruct (create_driver_then_list alice w3 db_alice)
    as (r & db' & before & Hrun & Hbefore & Hafter & Hid & _).
  - unfold valid_oid. simpl. lia.
  - by_computation.
  - exists r, db'. split; [exact Hrun |]. split; [| exact Hid].
    rewrite Hafter. rewrite list_drivers_run in Hbefore.
    injection Hbefore as <-. reflexivity.
Defined.

(** X7.  Whatever [POST /drivers] answers, it leaves every collection
    other than [driver] as it was, and the drivers already stored stay in
    place unchanged: either nothing is written, or one document is
    appended whose [_id] is the generated identifier, unused before. *)
Theorem create_driver_frame (p : DriverCreate.t) (w : world) (db : database) :
  let db' := (create_driver p w db).2 in
  (∀ name, name ≠ "driver" → db' !! name = db !! name)
  ∧ (coll "driver" db' = coll "driver" db
     ∨ ∃ d, coll "driver" db' = coll "driver" db ++ [d]
            ∧ d !! "_id" = Some (VOid (generated_id w))
            ∧ VOid (generated_id w) ∉ ids (coll "driver" db)).
Proof.
  cbv zeta. destruct (create_driver p w db) as [res db'] eqn:Hrun. cbn [snd].
  unfold create_driver in Hrun. rewrite bind_run in Hrun.
  unfold create_document in Hrun. rewrite bind_run in Hrun.
  unfold insert_one in Hrun.
  case_bool_decide as Hfresh; [injection Hrun as _ <-; by split; [| left] |].
  unfold mret, St_ret in Hrun. rewrite bind_run in Hrun.
  unfold ObjectId_or_raise in Hrun.
  assert (db' = <["driver" := coll "driver" db
                    ++ [<["_id" := VOid (generated_id w)]>
                          (DriverCreate.model_dump p)]]> db) as ->.
  { destruct (ObjectId (oid_str _)); [| by injection Hrun as _ <-].
    unfold mret, St_ret in Hrun. rewrite bind_run in Hrun.
    unfold find_one in Hrun. by injection Hrun as _ <-. }
  split; [intros name Hne; by rewrite lookup_insert_ne |].
  right. eexists. rewrite coll_insert.
  split; [reflexivity |]. split; [apply lookup_insert_eq | done].
Qed.

(** ** Marking, then reading *)

(** A mark that passes the checks, on a well-formed store, succeeds, and
    answers the record of the pair as it now stands. *)
Lemma mark_attendance_succeeds p w db o dn :
  ObjectId (AttendanceCreate.driver_id p) = Some o →
  VOid o ∈ ids (coll "driver" db) →
  normalize_date (AttendanceCreate.date p) = inr dn →
  wf_collection (coll "attendance" db) →
  valid_oid (generated_id w) →
  (records_of (AttendanceCreate.driver_id p) dn (coll "attendance" db) = [] →
   VOid (generated_id w) ∉ ids (coll "attendance" db)) →
  ∃ r db',
    mark_attendance p w db = (inr (Some (serialize_doc r)), db')
    ∧ r ∈ coll "attendance" db'
    ∧ is_record_of (AttendanceCreate.driver_id p) dn r
    ∧ r !! "status" = Some (st_of p)
    ∧ r !! "notes" = Some (nt_of p).
Proof.
  intros Hid Hdrv Hdate Hwf Hvalid Hfresh.
  destruct (mark_attendance p w db) as [res db'] eqn:Hrun.
  unfold mark_attendance in Hrun. rewrite Hid in Hrun.
  rewrite bind_run in Hrun. unfold find_one at 1 in Hrun.
  destruct (truthy_doc _) eqn:Ht; [| by apply find_driver_falsy in Ht].
  clear Ht. cbn [negb] in Hrun. rewrite bind_run in Hrun. unfold lift in Hrun.
  rewrite Hdate in Hrun.
  rewrite bind_run in Hrun. unfold find_one at 1 in Hrun.
  destruct (List.find _ _) as [r|] eqn:Hfind.
  - cbn [truthy_doc] in Hrun.
    apply find_split in Hfind as (pre & post & Hc & Hpre & Hr).
    destruct Hwf as [Hhas Hnd].
    assert (Hrid : has_id r).
    { rewrite Hc in Hhas. apply Forall_app in Hhas as [_ Hhas].
      by inversion Hhas. }
    destruct Hrid as [v Hv].
    rewrite bool_decide_eq_false_2 in Hrun
      by (intros ->; by rewrite lookup_empty in Hv).
    cbn [negb mbind option_bind] in Hrun. rewrite Hv in Hrun.
    rewrite bind_run in Hrun. unfold update_one in Hrun.
    rewrite bind_run in Hrun. unfold find_one in Hrun.
    injection Hrun as <- <-.
    apply matches_pair in Hr.
    assert (Hno : Forall (λ x, matches {[ "_id" := v ]} x = false) pre).
    { eapply wf_no_earlier_id; [rewrite <- Hc; by split | done]. }
    assert (Hc' :
      coll "attendance"
        (alter (update_first {[ "_id" := v ]}
                  (<["updated_at" := VTime (utcnow w)]> (data_of p dn)))
               "attendance" db)
      = pre ++ remarked p w r :: post).
    { rewrite coll_alter_update, Hc, update_first_app;
        [| done | by apply matches_field].
      unfold data_of. by rewrite set_over_record. }
    unfold data_of, st_of, nt_of in Hc'. rewrite Hc'.
    rewrite (find_app_first _ pre (remarked p w r) post);
      [| done | apply matches_field; by rewrite remarked_lookup].
    eexists _, _. split; [reflexivity |]. rewrite Hc'.
    split; [set_solver |]. split; [by apply remarked_record |].
    unfold remarked. by simplify_map_eq.
  - cbn [truthy_doc] in Hrun.
    rewrite bind_run in Hrun. unfold create_document in Hrun.
    rewrite bind_run in Hrun. unfold insert_one in Hrun.
    assert (Hnew : VOid (generated_id w) ∉ ids (coll "attendance" db)).
    { apply Hfresh, records_of_nil_Forall.
      apply find_none_Forall in Hfind.
      eapply Forall_impl; [exact Hfind |]. intros x. by rewrite matches_pair_false. }
    rewrite bool_decide_eq_false_2 in Hrun by done.
    unfold mret, St_ret in Hrun. rewrite bind_run in Hrun.
    unfold ObjectId_or_raise in Hrun.
    rewrite ObjectId_oid_str in Hrun by done.
    unfold mret, St_ret in Hrun. rewrite bind_run in Hrun.
    unfold find_one in Hrun. injection Hrun as <- <-.
    rewrite coll_insert. fold (data_of p dn). fold (new_record p dn w).
    rewrite (find_app_new _ _ (new_record p dn w));
      [| done | apply lookup_insert_eq].
    eexists _, _. split; [reflexivity |]. rewrite coll_insert.
    split; [set_solver |]. split; [by apply new_record_of |].
    unfold new_record, data_of. by simplify_map_eq.
Qed.

Lemma ObjectId_nonempty i : is_Some (ObjectId i) → i ≠ "".
Proof. by intros [o Ho] ->. Qed.

Lemma normalize_date_nonempty s dn : normalize_date s = inr dn → s ≠ "".
Proof. by intros H ->. Qed.

Lemma truthy_str_Some s : s ≠ "" → truthy_str (Some s) = Some s.
Proof. intros H. simpl. by rewrite bool_decide_eq_false_2. Qed.

Lemma coll_insert_ne (name name' : string) (c : collection) (db : database) :
  name ≠ name' → coll name' (<[name := c]> db) = coll name' db.
Proof. intros Hne. unfold coll. by rewrite lookup_insert_ne. Qed.

Lemma create_driver_duplicate p w db :
  VOid (generated_id w) ∈ ids (coll "driver" db) →
  create_driver p w db = (inl (Unhandled "DuplicateKeyError"), db).
Proof.
  intros Hdup. unfold create_driver. rewrite bind_run. unfold create_document.
  rewrite bind_run. unfold insert_one. by rewrite bool_decide_eq_true_2.
Qed.

Lemma serialize_doc_lookup (d : doc) (k : string) :
  k ≠ "_id" → k ≠ "id" → serialize_doc d !! k = d !! k.
Proof.
  intros H1 H2. unfold serialize_doc. case_bool_decide; [done |].
  destruct (d !! "_id"); [| done].
  by rewrite lookup_insert_ne, lookup_delete_ne.
Qed.

(** X8.  A driver that [POST /drivers] has answered can be marked: when
    [POST /drivers] returns [r], a [POST /attendance] whose [driver_id] is
    the [id] of [r] and whose date normalizes passes the driver check and
    succeeds (on a store whose attendance documents each have their own
    [_id], with 12-byte generated identifiers, the second one unused), and
    the record it answers carries that [driver_id] and the normalized
    date. *)
Theorem created_driver_can_be_marked
    (p : DriverCreate.t) (w : world) (db : database) (r : doc) (db1 : database)
    (pl : AttendanceCreate.t) (w2 : world) (dn : string) :
  valid_oid (generated_id w) →
  create_driver p w db = (inr (Some r), db1) →
  r !! "id" = Some (VStr (AttendanceCreate.driver_id pl)) →
  normalize_date (AttendanceCreate.date pl) = inr dn →
  wf_collection (coll "attendance" db) →
  valid_oid (generated_id w2) →
  VOid (generated_id w2) ∉ ids (coll "attendance" db) →
  ∃ res db2,
    mark_attendance pl w2 db1 = (inr (Some res), db2)
    ∧ res !! "driver_id" = r !! "id"
    ∧ res !! "date" = Some (VStr dn).
Proof.
  intros Hvalid Hcreate Hrid Hdate Hwf Hvalid2 Hfresh2.
  destruct (decide (VOid (generated_id w) ∈ ids (coll "driver" db)))
    as [Hdup | Hfresh].
  { by rewrite create_driver_duplicate in Hcreate. }
  rewrite create_driver_run in Hcreate by done.
  injection Hcreate as <- <-.
  rewrite serialize_new_driver in Hrid. injection Hrid as Hi.
  destruct (mark_attendance_succeeds pl w2
              (<["driver" := coll "driver" db ++ [new_driver p w]]> db)
              (generated_id w) dn) as (r' & db2 & Hrun & _ & [Hri Hrd] & _).
  - rewrite <- Hi. by apply ObjectId_oid_str.
  - rewrite coll_insert, ids_app. apply elem_of_app. right.
    rewrite (ids_cons _ (VOid (generated_id w))) by apply lookup_insert_eq.
    left.
  - done.
  - by rewrite coll_insert_ne.
  - done.
  - intros _. by rewrite coll_insert_ne.
  - exists (serialize_doc r'), db2. split; [exact Hrun |].
    rewrite serialize_new_driver, Hi.
    by rewrite !serialize_doc_lookup.
Qed.

(** Alice is created in the empty database and marked present. *)
Lemma created_driver_can_be_marked_witness :
  ∃ res db2,
    mark_attendance first_mark w2 db_alice = (inr (Some res), db2)
    ∧ res !! "driver_id" = Some (VStr D1)
    ∧ res !! "date" = Some (VStr "2024-01-05").
Proof.
  destruct (created_driver_can_be_marked alice w1 ∅
              (serialize_doc alice_doc) db_alice first_mark w2 "2024-01-05")
    as (res & db2 & Hrun & Hid & Hd).
  - unfold valid_oid. simpl. lia.
  - reflexivity.
  - reflexivity.
  - reflexivity.
  - by_computation.
  - unfold valid_oid. simpl. lia.
  - by_computation.
  - exists res, db2. split; [exact Hrun |]. split; [| exact Hd].
    rewrite Hid. reflexivity.
Defined.

Lemma records_of_wanted i dn c :
  filter (wanted (Some dn) (Some i)) c = records_of i dn c.
Proof. apply list_filter_iff. intros r. unfold wanted, is_record_of. tauto. Qed.

Lemma records_of_sole_member i dn c r :
  (length (records_of i dn c) ≤ 1)%nat →
  r ∈ c → is_record_of i dn r → records_of i dn c = [r].
Proof.
  intros Hlen Hin Hr.
  assert (Hmem : r ∈ records_of i dn c) by (by apply list_elem_of_filter).
  destruct (records_of i dn c) as [|x [|y l]]; simpl in *.
  - by apply elem_of_nil in Hmem.
  - by apply list_elem_of_singleton in Hmem as ->.
  - lia.
Qed.

(** X9.  After a successful [POST /attendance], on a store with at most
    one record per pair whose attendance documents each have their own
    [_id], [GET /attendance] with the same [date] and [driver_id] answers
    exactly one object, the one [POST /attendance] returned. *)
Theorem mark_then_query
    (p : AttendanceCreate.t) (w : world) (db : database)
    (res : option doc) (db' : database) :
  wf_collection (coll "attendance" db) →
  unique_pairs (coll "attendance" db) →
  valid_oid (generated_id w) →
  mark_attendance p w db = (inr res, db') →
  ∃ r, res = Some r
       ∧ get_attendance (Some (AttendanceCreate.date p))
                        (Some (AttendanceCreate.driver_id p)) db'
         = (inr [r], db').
Proof.
  intros Hwf Huniq Hvalid Hrun.
  destruct (mark_attendance_invariants p w db Hwf Huniq) as [_ Huniq'].
  rewrite Hrun in Huniq'. cbn [snd] in Huniq'.
  pose proof Hrun as Hinv.
  apply mark_attendance_success in Hinv as (o & dn & Hid & Hdrv & Hdate & Hcase).
  destruct (mark_attendance_succeeds p w db o dn Hid Hdrv Hdate Hwf Hvalid)
    as (r & db'' & Hrun' & Hin & Hr & _).
  { intros Hnone. destruct Hcase as [(r & v & Hfind & _) | (_ & Hfresh & _)];
      [| done].
    apply records_of_nil_Forall, Forall_not_record, find_none_Forall in Hnone.
    congruence. }
  rewrite Hrun in Hrun'. injection Hrun' as -> <-.
  exists (serialize_doc r). split; [done |].
  rewrite (get_attendance_run _ _ (Some dn)).
  - rewrite truthy_str_Some by (apply ObjectId_nonempty; by rewrite Hid).
    rewrite records_of_wanted.
    by rewrite (records_of_sole_member _ _ _ r).
  - rewrite truthy_str_Some by (by eapply normalize_date_nonempty). eauto.
  - rewrite truthy_str_Some by (apply ObjectId_nonempty; by rewrite Hid).
    by rewrite Hid.
Qed.

(** Marking Alice late in the store that also holds her record of
    2024-01-06, then asking for 2024-1-5. *)
Lemma mark_then_query_witness :
  ∃ r, (mark_attendance second_mark w3 db_sick).1 = inr (Some r)
       ∧ get_attendance (Some "2024-1-5") (Some D1)
                        (mark_attendance second_mark w3 db_sick).2
         = (inr [r], (mark_attendance second_mark w3 db_sick).2).
Proof.
  destruct (mark_then_query second_mark w3 db_sick
              (Some (serialize_doc (remarked second_mark w3 R1)))
              (mark_attendance second_mark w3 db_sick).2)
    as (r & Hres & Hget).
  - by_computation.
  - intros i dn. unfold records_of, db_sick. rewrite coll_insert.
    rewrite !filter_cons, filter_nil.
    destruct (decide (is_record_of i dn R1)) as [[_ H1] |];
      destruct (decide (is_record_of i dn R_sick)) as [[_ H2] |];
      simpl; try lia.
    vm_compute in H1, H2. congruence.
  - unfold valid_oid. simpl. lia.
  - vm_compute. reflexivity.
  - exists r. split; [| exact Hget]. rewrite <- Hres. vm_compute. reflexivity.
Defined.

(** ** Summaries *)

Lemma attendance_summary_run i db :
  is_Some (ObjectId i) →
  attendance_summary i db
  = (inr (summary_of i (driver_records i (coll "attendance" db))), db).
Proof.
  intros [o Hid]. unfold attendance_summary. rewrite Hid.
  rewrite bind_run. unfold aggregate_match_group.
  rewrite (List_filter_stdpp _ (λ r : doc, r !! "driver_id" = Some (VStr i)))
    by (intros r; apply matches_field).
  fold (driver_records i (coll "attendance" db)).
  unfold mret, St_ret, summary_of. cbv beta iota.
  by rewrite !counts_status, counts_total.
Qed.

Lemma with_status_serialized s c :
  with_status s (serialize_doc <$> c) = with_status s c.
Proof.
  unfold with_status. induction c as [|d c IH]; [done |].
  rewrite fmap_cons, !filter_cons, serialize_doc_lookup by done.
  destruct (decide (d !! "status" = Some (VStr s))); simpl; by rewrite IH.
Qed.

Lemma driver_records_wanted i c :
  filter (wanted None (Some i)) c = driver_records i c.
Proof. apply list_filter_iff. intros r. unfold wanted. tauto. Qed.

(** X10.  For a valid [driver_id], [GET /attendance/summary] counts what
    [GET /attendance] lists for that driver: [total_days] is the number of
    objects listed, and [present], [absent], [late] are the numbers of
    listed objects with that status. *)
Theorem summary_counts_the_query (i : string) (db : database) :
  is_Some (ObjectId i) →
  ∃ s rs,
    attendance_summary i db = (inr s, db)
    ∧ get_attendance None (Some i) db = (inr rs, db)
    ∧ Summary.total_days s = length rs
    ∧ Summary.present s = with_status "present" rs
    ∧ Summary.absent s = with_status "absent" rs
    ∧ Summary.late s = with_status "late" rs.
Proof.
  intros Hid. eexists _, _.
  split; [by apply attendance_summary_run |].
  split.
  { apply (get_attendance_run None (Some i) None); [done |].
    by rewrite truthy_str_Some by by apply ObjectId_nonempty. }
  rewrite truthy_str_Some by by apply ObjectId_nonempty.
  rewrite driver_records_wanted, !with_status_serialized, length_fmap.
  done.
Qed.

(** Alice's two records in the scenario's store. *)
Lemma summary_counts_the_query_witness :
  ∃ s rs,
    attendance_summary D1 db_sick = (inr s, db_sick)
    ∧ get_attendance None (Some D1) db_sick = (inr rs, db_sick)
    ∧ Summary.total_days s = length rs
    ∧ length rs = 2%nat.
Proof.
  destruct (summary_counts_the_query D1 db_sick) as (s & rs & Hs & Hq & Ht & _).
  - exists 1%N. reflexivity.
  - exists s, rs. split; [exact Hs |]. split; [exact Hq |]. split; [exact Ht |].
    assert (Hq' : (get_attendance None (Some D1) db_sick).1 = inr rs)
      by (by rewrite Hq).
    vm_compute in Hq'. injection Hq' as <-. reflexivity.
Defined.

(** X11.  [GET /attendance/summary] answers 400 for a [driver_id] that is
    not a valid identifier and changes nothing; for a valid identifier
    with no attendance record it answers all counts 0, whether or not a
    driver with that identifier exists. *)
Theorem attendance_summary_edges (i : string) (db : database) :
  (ObjectId i = None →
   attendance_summary i db = (inl (HTTPException 400 "Invalid driver_id"), db))
  ∧ (is_Some (ObjectId i) →
     driver_records i (coll "attendance" db) = [] →
     attendance_summary i db
     = (inr {| Summary.driver_id := i; Summary.total_days := 0;
               Summary.present := 0; Summary.absent := 0;
               Summary.late := 0 |}, db)).
Proof.
  split.
  - intros Hid. unfold attendance_summary. by rewrite Hid.
  - intros Hid Hnone. rewrite attendance_summary_run by done. by rewrite Hnone.
Qed.

Lemma driver_records_app i c1 c2 :
  driver_records i (c1 ++ c2) = driver_records i c1 ++ driver_records i c2.
Proof. apply filter_app. Qed.

Lemma driver_records_replace i pre r r' post :
  r' !! "driver_id" = r !! "driver_id" →
  length (driver_records i (pre ++ r' :: post))
  = length (driver_records i (pre ++ r :: post)).
Proof.
  intros H. rewrite !driver_records_app, !length_app. f_equal.
  unfold driver_records. rewrite !filter_cons, H.
  by destruct (decide (r !! "driver_id" = Some (VStr i))).
Qed.

Lemma driver_records_other_replace i pre r r' post :
  r !! "driver_id" ≠ Some (VStr i) → r' !! "driver_id" = r !! "driver_id" →
  driver_records i (pre ++ r' :: post) = driver_records i (pre ++ r :: post).
Proof.
  intros Hr H. rewrite !driver_records_app. f_equal.
  unfold driver_records. rewrite !filter_cons_False; [done.. |]. by rewrite H.
Qed.

(** X12.  A successful [POST /attendance] raises the [total_days] of the
    marked driver's summary by one when the pair had no record and leaves
    it as it was when the pair had one; the summary of every other
    [driver_id] is unchanged. *)
Theorem mark_then_summary
    (p : AttendanceCreate.t) (w : world) (db : database)
    (res : option doc) (db' : database) :
  wf_collection (coll "attendance" db) →
  mark_attendance p w db = (inr res, db') →
  let i := AttendanceCreate.driver_id p in
  ∃ dn s s',
    normalize_date (AttendanceCreate.date p) = inr dn
    ∧ attendance_summary i db = (inr s, db)
    ∧ attendance_summary i db' = (inr s', db')
    ∧ Summary.total_days s'
      = (Summary.total_days s
         + (if decide (records_of i dn (coll "attendance" db) = [])
            then 1 else 0))%nat
    ∧ ∀ j, j ≠ i →
           (attendance_summary j db').1 = (attendance_summary j db).1.
Proof.
  intros Hwf Hrun i.
  pose proof Hrun as Hinv.
  apply mark_attendance_success in Hinv as (o & dn & Hid & _ & Hdate & _).
  fold i in Hid.
  exists dn, (summary_of i (driver_records i (coll "attendance" db))),
    (summary_of i (driver_records i (coll "attendance" db'))).
  split; [done |].
  split; [apply attendance_summary_run; by rewrite Hid |].
  split; [apply attendance_summary_run; by rewrite Hid |].
  assert (Hother : ∀ j, j ≠ i →
            driver_records j (coll "attendance" db')
            = driver_records j (coll "attendance" db) →
            (attendance_summary j db').1 = (attendance_summary j db).1).
  { intros j Hj Heq. destruct (ObjectId j) as [oj|] eqn:Hoj.
    - rewrite !attendance_summary_run by (by rewrite Hoj). simpl. by rewrite Heq.
    - unfold attendance_summary. by rewrite Hoj. }
  cbn [summary_of Summary.total_days].
  destruct (mark_attendance_step p w db (inr res) db' Hwf Hrun)
    as [[_ Hfail] | (dn' & Hdate' & Hcase)]; [by destruct Hfail |].
  assert (dn' = dn) as -> by congruence. fold i in Hcase.
  destruct Hcase as [(pre & r & post & Hc & _ & [Hri Hrd] & Hc')
                    | (Hnone & _ & Hc')].
  - split.
    + rewrite Hc', Hc, (driver_records_replace i pre r)
        by (by apply remarked_lookup).
      rewrite decide_False; [lia |].
      intros Hnil. apply records_of_nil_Forall in Hnil.
      apply Forall_app in Hnil as [_ Hnil]. inversion Hnil as [|? ? Hr _].
      by apply Hr.
    + intros j Hj. apply Hother; [done |]. rewrite Hc', Hc.
      apply driver_records_other_replace; [| by apply remarked_lookup].
      rewrite Hri. intros [= ->]. done.
  - assert (Hnew : new_record p dn w !! "driver_id" = Some (VStr i))
      by apply (proj2 (new_record_of p dn w i dn) (conj eq_refl eq_refl)).
    split.
    + rewrite decide_True by done.
      rewrite Hc', driver_records_app, length_app. unfold driver_records at 2.
      rewrite filter_cons_True, filter_nil by done. simpl. lia.
    + intros j Hj. apply Hother; [done |].
      rewrite Hc', driver_records_app. unfold driver_records at 2.
      rewrite filter_cons_False, filter_nil, app_nil_r; [done |].
      rewrite Hnew. intros [= ->]. done.
Qed.

(** Alice's summary before and after her first mark. *)
Lemma mark_then_summary_witness :
  ∃ s s',
    attendance_summary D1 db_alice = (inr s, db_alice)
    ∧ attendance_summary D1 db_marked = (inr s', db_marked)
    ∧ Summary.total_days s' = S (Summary.total_days s).
Proof.
  destruct (mark_then_summary first_mark w2 db_alice
              (Some (serialize_doc R1)) db_marked)
    as (dn & s & s' & Hdn & Hs & Hs' & Ht & _).
  - by_computation.
  - reflexivity.
  - exists s, s'. split; [exact Hs |]. split; [exact Hs' |].
    rewrite Ht. vm_compute in Hdn. injection Hdn as <-.
    rewrite decide_True by reflexivity. lia.
Defined.

(** ** [serialize_id] *)

Lemma serialize_doc_no_id (d : doc) : d !! "_id" = None → serialize_doc d = d.
Proof. intros Hd. unfold serialize_doc. rewrite Hd. by case_bool_decide. Qed.

(** X13.  [serialize_id] applied to its own result changes nothing more;
    a document without [_id] is returned as it is, and [None] stays
    [None]. *)
Theorem serialize_id_settles (o : option doc) :
  serialize_id (serialize_id o) = serialize_id o
  ∧ (∀ d, o = Some d → d !! "_id" = None → serialize_id o = o)
  ∧ (o = None → serialize_id o = None).
Proof.
  split; [| split].
  - destruct o as [d|]; [| done]. simpl. f_equal.
    destruct (d !! "_id") as [v|] eqn:Hv.
    + rewrite (serialize_doc_has_id d v Hv).
      apply serialize_doc_no_id.
      by rewrite lookup_insert_ne, lookup_delete_eq.
    + rewrite (serialize_doc_no_id d Hv). apply (serialize_doc_no_id d Hv).
  - intros d -> Hd. simpl. by rewrite serialize_doc_no_id.
  - by intros ->.
Qed.

(** ** [GET /attendance]: the two filters together *)

Lemma filter_serialized (P : doc → Prop) `{∀ r, Decision (P r)} (c : collection) :
  (∀ d, P (serialize_doc d) ↔ P d) →
  filter P (serialize_doc <$> c) = serialize_doc <$> filter P c.
Proof.
  intros HP. induction c as [|d c IH]; [done |].
  rewrite fmap_cons. destruct (decide (P d)) as [Hd | Hd].
  - rewrite !filter_cons_True by (done || by apply HP).
    by rewrite fmap_cons, IH.
  - rewrite !filter_cons_False by (done || by rewrite HP). done.
Qed.

(** X14.  In [GET /attendance] the two filters act one on top of the
    other: with a valid [driver_id], the answer for a date and that
    [driver_id] is the answer for the date alone, in the same order,
    restricted to the objects carrying that [driver_id]. *)
Theorem get_attendance_narrows
    (date : option string) (i : string) (db : database) (by_date : list doc) :
  is_Some (ObjectId i) →
  get_attendance date None db = (inr by_date, db) →
  get_attendance date (Some i) db
  = (inr (filter (λ r : doc, r !! "driver_id" = Some (VStr i)) by_date), db).
Proof.
  intros Hid Hdate.
  assert (Hi : truthy_str (Some i) = Some i)
    by (apply truthy_str_Some; by apply ObjectId_nonempty).
  assert (Hdn : ∃ dn, match truthy_str date with
                      | Some s => ∃ d, normalize_date s = inr d ∧ dn = Some d
                      | None => dn = None
                      end).
  { destruct (truthy_str date) as [s|] eqn:Hs; [| by exists None].
    destruct (normalize_date s) as [e|d] eqn:Hd; [| by exists (Some d), d].
    unfold get_attendance in Hdate. rewrite Hs, bind_run in Hdate.
    rewrite bind_run in Hdate. unfold lift in Hdate. by rewrite Hd in Hdate. }
  destruct Hdn as [dn Hdn].
  rewrite (get_attendance_run date None dn db Hdn I) in Hdate.
  injection Hdate as <-.
  rewrite (get_attendance_run date (Some i) dn db Hdn) by (by rewrite Hi).
  rewrite Hi. do 2 f_equal.
  rewrite filter_serialized by (intros d; by rewrite serialize_doc_lookup).
  f_equal. change (truthy_str None) with (@None string).
  rewrite list_filter_filter. apply list_filter_iff.
  intros r. unfold wanted. tauto.
Qed.

(** Alice's records of 2024-01-06 in the scenario's store. *)
Lemma get_attendance_narrows_witness :
  get_attendance (Some "2024-01-06") (Some D1) db_sick
  = (inr [serialize_doc R_sick], db_sick).
Proof.
  rewrite (get_attendance_narrows (Some "2024-01-06") D1 db_sick
             [serialize_doc R_sick]).
  - reflexivity.
  - exists 1%N. reflexivity.
  - reflexivity.
Defined.

(** ** [GET /test]: what is reported when something fails *)

Lemma length_substring_le (n m : nat) (s : string) :
  (String.length (substring n m s) ≤ m)%nat.
Proof.
  revert n m. induction s as [|c s IH]; intros n m.
  - destruct n, m; simpl; lia.
  - destruct n as [|n]; simpl.
    + destruct m as [|m]; simpl; [lia |]. specialize (IH 0%nat m). lia.
    + apply IH.
Qed.

(** X15.  What [GET /test] reports besides the [database] text: with a
    database configured, [database_url] says whether [DATABASE_URL] is set
    and non-empty, even when [db.name] raises afterwards; [database_name]
    and [connection_status] report the connection only when [db.name]
    could be read; after either failure the report never says the
    database is working and lists no collection; and the text taken from
    an exception is at most 50 characters long. *)
Theorem test_database_partial_report
    (db : option db_handle) (DATABASE_URL : option string) :
  ∃ r, test_database db DATABASE_URL = inr r
    ∧ Diagnostics.database_url r
      = match db, truthy_str DATABASE_URL with
        | None, _ => None
        | Some _, Some _ => Some "✅ Set"
        | Some _, None => Some "❌ Not Set"
        end
    ∧ Diagnostics.database_name r
      = match db with
        | Some h => match db_name h with inr n => Some n | inl _ => None end
        | None => None
        end
    ∧ Diagnostics.connection_status r
      = match db with
        | Some h => match db_name h with
                    | inr _ => "Connected"
                    | inl _ => "Not Connected"
                    end
        | None => "Not Connected"
        end
    ∧ (∀ h e, db = Some h →
              db_name h = inl e ∨ list_collection_names h = inl e →
              Diagnostics.database r ≠ "✅ Connected & Working"
              ∧ Diagnostics.collections r = [])
    ∧ ∀ e, (String.length (first50 e) ≤ 50)%nat.
Proof.
  unfold test_database.
  destruct db as [[[e|name] [e'|names]]|];
    cbv [try_except mbind St_bind mret St_ret lift assign db_name
         list_collection_names];
    destruct (truthy_str DATABASE_URL);
    eexists; (split; [reflexivity |]); cbn;
    (split; [reflexivity |]); (split; [reflexivity |]);
    (split; [reflexivity |]);
    (split; [| intros; apply length_substring_le]);
    intros h e0 [= <-] [He | He]; cbn in He; try discriminate; by split.
Qed.

(** ** The driver text is the key *)

(** X16.  The driver is looked up by the parsed identifier, but records
    are keyed by the text sent.  When a mark's [driver_id] has no record
    for the date, the mark appends one under that text and leaves the
    records under any other text of the same identifier as they were, so
    that one driver can end up with two records for one date. *)
Theorem driver_text_is_the_key
    (p : AttendanceCreate.t) (w : world) (db : database)
    (other : string) (o : oid) (dn : string) :
  ObjectId (AttendanceCreate.driver_id p) = Some o →
  ObjectId other = Some o →
  other ≠ AttendanceCreate.driver_id p →
  VOid o ∈ ids (coll "driver" db) →
  normalize_date (AttendanceCreate.date p) = inr dn →
  wf_collection (coll "attendance" db) →
  records_of (AttendanceCreate.driver_id p) dn (coll "attendance" db) = [] →
  valid_oid (generated_id w) →
  VOid (generated_id w) ∉ ids (coll "attendance" db) →
  ∃ res db',
    mark_attendance p w db = (inr (Some res), db')
    ∧ res !! "driver_id" = Some (VStr (AttendanceCreate.driver_id p))
    ∧ records_of other dn (coll "attendance" db')
      = records_of other dn (coll "attendance" db)
    ∧ length (coll "attendance" db') = S (length (coll "attendance" db)).
Proof.
  intros Hid _ Hne Hdrv Hdate Hwf Hnone Hvalid Hfresh.
  destruct (mark_attendance_succeeds p w db o dn Hid Hdrv Hdate Hwf Hvalid)
    as (r & db' & Hrun & _ & [Hri _] & _); [done |].
  exists (serialize_doc r), db'. split; [done |].
  split; [by rewrite serialize_doc_lookup |].
  destruct (mark_attendance_step p w db _ db' Hwf Hrun)
    as [[_ Hfail] | (dn' & Hdate' & Hcase)]; [by destruct Hfail |].
  assert (dn' = dn) as -> by congruence.
  destruct Hcase as [(pre & r0 & post & Hc & _ & Hr0 & _) | (_ & _ & Hc')].
  - rewrite Hc in Hnone. apply records_of_nil_Forall in Hnone.
    apply Forall_app in Hnone as [_ Hnone]. inversion Hnone as [|? ? Hn _].
    by destruct Hn.
  - rewrite Hc', records_of_app, length_app. split; [| simpl; lia].
    unfold records_of at 2.
    rewrite filter_cons_False, filter_nil, app_nil_r; [done |].
    rewrite new_record_of. by intros [? _].
Qed.

(** Alice, marked under the lower-case text, is marked again for the same
    day under the upper-case text: two records. *)
Lemma driver_text_is_the_key_witness :
  ∃ res db',
    mark_attendance mark_upper w3 db_A = (inr (Some res), db')
    ∧ length (records_of alice_A "2024-01-05" (coll "attendance" db')) = 1%nat
    ∧ length (coll "attendance" db') = 2%nat.
Proof.
  destruct (driver_text_is_the_key mark_upper w3 db_A alice_A 10%N "2024-01-05")
    as (res & db' & Hrun & _ & Hrec & Hlen).
  - reflexivity.
  - reflexivity.
  - discriminate.
  - by_computation.
  - reflexivity.
  - by_computation.
  - reflexivity.
  - unfold valid_oid. simpl. lia.
  - by_computation.
  - exists res, db'. split; [exact Hrun |]. rewrite Hrec, Hlen. by split.
Defined.
